(** * Grouping people under team heads: a model of [eg.py] and its properties

    The program reads two tables (people, team heads) and, when the
    "Process and Group" button is pressed, appends one row per pairing to
    [grouped_results].  This file embeds that handler: records are
    insertion-ordered dictionaries, the two identifier sets are finite sets
    of strings, and every loop of the source is a structural recursion that
    threads the mutable variables of the source explicitly.  The handler is
    written a second time over any implementation of the two sets, to show
    that their layout does not reach the rows. *)

From Stdlib Require Import Ascii String Arith Lia.
From stdpp Require Import base tactics option list strings gmap.

#[local] Set Warnings "-clear-no-such-hyp".

Open Scope string_scope.
Open Scope list_scope.
Open Scope nat_scope.

(** ** Data model *)

(** A record is one row of [df.astype(str).to_dict(orient='records')]: a
    Python [dict] from column name to string, iterated in insertion order. *)
Abbreviation Dict := (list (string * string)).

(** [d.get(key)] *)
Fixpoint dict_get (key : string) (d : Dict) : option string :=
  match d with
  | [] => None
  | (k, v) :: d' => if decide (k = key) then Some v else dict_get key d'
  end.

(** [d[key] = value]: an existing key keeps its position, a new key goes
    last. *)
Fixpoint dict_set (key value : string) (d : Dict) : Dict :=
  match d with
  | [] => [(key, value)]
  | (k, v) :: d' =>
      if decide (k = key) then (k, value) :: d'
      else (k, v) :: dict_set key value d'
  end.

(** The keys of a Python [dict] are pairwise distinct. *)
Definition is_dict (d : Dict) : Prop := NoDup d.*1.

Global Instance is_dict_dec d : Decision (is_dict d).
Proof. unfold is_dict. apply _. Defined.

(** [get_identifier(item, primary_column)] *)
Definition get_identifier (item : Dict) (primary_column : string)
  : option string :=
  dict_get primary_column item.

(** ** Rows

    The source builds every row in one of three shapes: head and member,
    head and a status, member and a status.  [Association] names the shape
    and keeps the records it was built from; [project] is the row-building
    code. *)
Inductive Association : Type :=
| HeadMember (head member : Dict)
| HeadOnly (head : Dict) (status : string)
| MemberOnly (member : Dict) (status : string).

Global Instance Association_eq_dec : EqDecision Association.
Proof. solve_decision. Defined.

Definition assoc_head (a : Association) : option Dict :=
  match a with
  | HeadMember head _ | HeadOnly head _ => Some head
  | MemberOnly _ _ => None
  end.

Definition assoc_member (a : Association) : option Dict :=
  match a with
  | HeadMember _ member | MemberOnly member _ => Some member
  | HeadOnly _ _ => None
  end.

(** [for key, value in item.items(): row[f"{prefix}{key}"] = value] *)
Fixpoint add_fields (prefix : string) (items row : Dict) : Dict :=
  match items with
  | [] => row
  | (key, value) :: items' =>
      add_fields prefix items' (dict_set (prefix +:+ key) value row)
  end.

Definition head_prefix : string := "Team Head - ".
Definition member_prefix : string := "Group Member - ".

Definition project (a : Association) : Dict :=
  match a with
  | HeadMember head member =>
      add_fields member_prefix member (add_fields head_prefix head [])
  | HeadOnly head status =>
      dict_set "Group Member - Status" status (add_fields head_prefix head [])
  | MemberOnly member status =>
      add_fields member_prefix member [("Team Head - Status", status)]
  end.

(** What the handler can end with: one of its three [st.error] messages, or
    the rows appended to [grouped_results]. *)
Inductive Error : Type :=
| PeopleNotLoaded   (* 'Please upload the People Excel/CSV sheet ...' *)
| HeadsNotLoaded    (* 'Please upload the Team Heads Excel/CSV sheet ...' *)
| NoTeamHeads.      (* 'Error: No team heads found. Cannot create groups.' *)

Inductive Outcome : Type :=
| Failed (e : Error)
| Grouped (grouped_results : list Association).

Definition rows_of (o : Outcome) : list Dict :=
  match o with
  | Failed _ => []
  | Grouped grouped_results => project <$> grouped_results
  end.

(** ** General grouping (the [else] branch, lines 247-297) *)

Section general_grouping.
Context (heads_data people_data : list Dict).

Let num_people := length people_data.

(** [for j in range(count_for_this_head)], with its [break]. *)
Fixpoint general_members_loop (head : Dict) (count people_index : nat)
    (grouped_results : list Association) : nat * list Association :=
  match count with
  | 0 => (people_index, grouped_results)
  | S count' =>
      if decide (people_index < num_people) then
        let member := people_data !!! people_index in
        general_members_loop head count' (people_index + 1)
          (grouped_results ++ [HeadMember head member])
      else (people_index, grouped_results)
  end.

(** [for i in range(num_heads): head = heads_data[i]]; the first argument
    is the part of [heads_data] still to visit. *)
Fixpoint general_heads_loop (heads : list Dict)
    (base_per_head remainder people_index : nat)
    (grouped_results : list Association) : nat * list Association :=
  match heads with
  | [] => (people_index, grouped_results)
  | head :: heads' =>
      let count_for_this_head :=
        if decide (0 < remainder) then base_per_head + 1 else base_per_head in
      let remainder :=
        if decide (0 < remainder) then remainder - 1 else remainder in
      if decide (count_for_this_head = 0) then
        general_heads_loop heads' base_per_head remainder people_index
          (grouped_results ++ [HeadOnly head "No members assigned"])
      else
        let '(people_index, grouped_results) :=
          general_members_loop head count_for_this_head people_index
            grouped_results in
        general_heads_loop heads' base_per_head remainder people_index
          grouped_results
  end.

(** [while people_index < num_people], lines 291-297; [fuel] bounds the
    number of iterations. *)
Fixpoint general_leftover_loop (fuel people_index : nat)
    (grouped_results : list Association) : list Association :=
  match fuel with
  | 0 => grouped_results
  | S fuel' =>
      if decide (people_index < num_people) then
        let person := people_data !!! people_index in
        general_leftover_loop fuel' (people_index + 1)
          (grouped_results
             ++ [MemberOnly person "UNASSIGNED (No more heads available)"])
      else grouped_results
  end.

(** The loop runs [num_people - people_index] times. *)
Definition general_leftover (people_index : nat)
    (grouped_results : list Association) : list Association :=
  general_leftover_loop (num_people - people_index) people_index
    grouped_results.

Definition general_grouping : Outcome :=
  let num_heads := length heads_data in
  if decide (num_heads = 0) then Failed NoTeamHeads
  else
    let base_per_head := num_people / num_heads in
    let remainder := num_people `mod` num_heads in
    let '(people_index, grouped_results) :=
      general_heads_loop heads_data base_per_head remainder 0 [] in
    Grouped (general_leftover people_index grouped_results).
End general_grouping.

(** ** College keys: [str(college).strip().lower()]

    A string is a sequence of code points below 256, one [ascii] each;
    text with other code points is outside the model.  On these code
    points [str.isspace] accepts U+0009 to U+000D, U+001C to U+0020, U+0085
    and U+00A0, and [str.lower] maps [A-Z], U+00C0 to U+00D6 and U+00D8 to
    U+00DE to the code point 32 further and leaves every other one as it
    is. *)

Definition is_space (a : ascii) : bool :=
  let n := nat_of_ascii a in
  bool_decide (9 ≤ n ≤ 13 ∨ 28 ≤ n ≤ 32 ∨ n = 133 ∨ n = 160).

Fixpoint lstrip (s : string) : string :=
  match s with
  | EmptyString => EmptyString
  | String a s' => if is_space a then lstrip s' else s
  end.

Fixpoint rstrip (s : string) : string :=
  match s with
  | EmptyString => EmptyString
  | String a s' =>
      let r := rstrip s' in
      if is_space a && bool_decide (r = EmptyString) then EmptyString
      else String a r
  end.

Definition strip (s : string) : string := rstrip (lstrip s).

Definition lower_char (a : ascii) : ascii :=
  let n := nat_of_ascii a in
  if bool_decide (65 ≤ n ≤ 90 ∨ 192 ≤ n ≤ 214 ∨ 216 ≤ n ≤ 222)
  then ascii_of_nat (n + 32) else a.

Fixpoint lower (s : string) : string :=
  match s with
  | EmptyString => EmptyString
  | String a s' => String (lower_char a) (lower s')
  end.

(** The key under which a record is bucketed, if any:
    [college = item.get(column)], kept when
    [college and str(college).strip() != '']. *)
Definition normalized_college (college_column : string) (item : Dict)
  : option string :=
  match dict_get college_column item with
  | Some college =>
      if decide (college ≠ "" ∧ strip college ≠ "")
      then Some (lower (strip college))
      else None
  | None => None
  end.

(** [people_by_college] and [heads_by_college]: dictionaries from key to
    list of records, iterated in the order the keys were first inserted. *)
Abbreviation Buckets := (list (string * list Dict)).

(** [if c not in by_college: by_college[c] = []] followed by
    [by_college[c].append(item)] *)
Fixpoint bucket_append (college : string) (item : Dict)
    (by_college : Buckets) : Buckets :=
  match by_college with
  | [] => [(college, [item])]
  | (k, items) :: rest =>
      if decide (k = college) then (k, items ++ [item]) :: rest
      else (k, items) :: bucket_append college item rest
  end.

Definition group_by_college (college_column : string) (data : list Dict)
  : Buckets :=
  foldl (λ by_college item,
           match normalized_college college_column item with
           | Some college => bucket_append college item by_college
           | None => by_college
           end) [] data.

(** [by_college.get(college_name, [])] *)
Fixpoint bucket_get (college_name : string) (by_college : Buckets)
  : list Dict :=
  match by_college with
  | [] => []
  | (k, items) :: rest =>
      if decide (k = college_name) then items else bucket_get college_name rest
  end.

(** ** College-based grouping (the [if] branch, lines 127-245) *)

(** The three mutable variables of the branch. *)
Record State : Type := mkState {
  grouped_results : list Association;
  assigned_people_identifiers : gset string;
  processed_heads_identifiers : gset string;
}.

Definition initial_state : State := mkState [] ∅ ∅.

(** [grouped_results.append(row)] *)
Definition append_row (a : Association) (st : State) : State :=
  mkState (grouped_results st ++ [a])
          (assigned_people_identifiers st) (processed_heads_identifiers st).

(** [assigned_people_identifiers.add(member_id)] *)
Definition add_assigned (member_id : string) (st : State) : State :=
  mkState (grouped_results st)
          ({[member_id]} ∪ assigned_people_identifiers st)
          (processed_heads_identifiers st).

(** [if head_id is not None: processed_heads_identifiers.add(head_id)] *)
Definition add_processed (head_id : option string) (st : State) : State :=
  match head_id with
  | Some i =>
      mkState (grouped_results st) (assigned_people_identifiers st)
              ({[i]} ∪ processed_heads_identifiers st)
  | None => st
  end.

(** [identifier not in ids], where the identifier may be [None] and the set
    only ever holds strings. *)
Definition not_in (identifier : option string) (ids : gset string) : Prop :=
  match identifier with
  | Some i => i ∉ ids
  | None => True
  end.

Global Instance not_in_dec identifier ids : Decision (not_in identifier ids).
Proof. destruct identifier; simpl; apply _. Defined.

Section college_grouping.
Context (heads_data people_data : list Dict).
Context (heads_primary_column_used people_primary_column_used : string).
Context (heads_college_column people_college_column : string).

Section one_college.
Context (college_name : string) (people_in_college : list Dict).

Let num_people_in_college := length people_in_college.

(** [for _ in range(count_for_this_head)], lines 177-192. *)
Fixpoint college_members_loop (head : Dict)
    (count current_people_index_in_college : nat) (st : State)
  : nat * State :=
  match count with
  | 0 => (current_people_index_in_college, st)
  | S count' =>
      if decide (current_people_index_in_college < num_people_in_college)
      then
        let member :=
          people_in_college !!! current_people_index_in_college in
        let member_id :=
          get_identifier member people_primary_column_used in
        let st :=
          match member_id with
          | Some i =>
              if decide (i ∉ assigned_people_identifiers st)
              then add_assigned i (append_row (HeadMember head member) st)
              else st
          | None => st
          end in
        college_members_loop head count'
          (current_people_index_in_college + 1) st
      else (current_people_index_in_college, st)
  end.

(** [for head in heads_in_college], lines 160-192. *)
Fixpoint college_heads_loop (heads : list Dict)
    (base_per_head remainder current_people_index_in_college : nat)
    (st : State) : nat * State :=
  match heads with
  | [] => (current_people_index_in_college, st)
  | head :: heads' =>
      let head_id := get_identifier head heads_primary_column_used in
      let st := add_processed head_id st in
      let count_for_this_head :=
        if decide (0 < remainder) then base_per_head + 1
        else base_per_head in
      let remainder :=
        if decide (0 < remainder) then remainder - 1 else remainder in
      if decide (count_for_this_head = 0) then
        college_heads_loop heads' base_per_head remainder
          current_people_index_in_college
          (append_row
             (HeadOnly head ("No members assigned from " +:+ college_name))
             st)
      else
        let '(index, st) :=
          college_members_loop head count_for_this_head
            current_people_index_in_college st in
        college_heads_loop heads' base_per_head remainder index st
  end.

(** [for head in heads_in_college], lines 194-202. *)
Definition college_without_people (heads_in_college : list Dict)
    (st : State) : State :=
  foldl (λ st head,
           let head_id := get_identifier head heads_primary_column_used in
           append_row
             (HeadOnly head
                ("No members from " +:+ college_name +:+
                 " assigned to this head"))
             (add_processed head_id st))
        st heads_in_college.
End one_college.

(** The body of [for college_name, heads_in_college in
    heads_by_college.items()]. *)
Definition college_step (people_by_college : Buckets) (st : State)
    (entry : string * list Dict) : State :=
  let '(college_name, heads_in_college) := entry in
  let people_in_college := bucket_get college_name people_by_college in
  if decide (heads_in_college ≠ [] ∧ people_in_college ≠ []) then
    let num_people_in_college := length people_in_college in
    let num_heads_in_college := length heads_in_college in
    let base_per_head := num_people_in_college / num_heads_in_college in
    let remainder := num_people_in_college `mod` num_heads_in_college in
    (college_heads_loop college_name people_in_college heads_in_college
       base_per_head remainder 0 st).2
  else if decide (heads_in_college ≠ []) then
    college_without_people college_name heads_in_college st
  else st.

Definition colleges_loop (st : State) : State :=
  let people_by_college :=
    group_by_college people_college_column people_data in
  let heads_by_college :=
    group_by_college heads_college_column heads_data in
  foldl (college_step people_by_college) st heads_by_college.

(** [for head in heads_data], lines 205-212. *)
Definition unprocessed_heads_loop (st : State) : State :=
  foldl (λ st head,
           match get_identifier head heads_primary_column_used with
           | Some head_id =>
               if decide (head_id ∉ processed_heads_identifiers st) then
                 append_row
                   (HeadOnly head
                      "No members assigned (No college match or college info)")
                   st
               else st
           | None => st
           end)
        st heads_data.

(** Line 215. *)
Definition unassigned_people (st : State) : list Dict :=
  filter (λ person,
            not_in (get_identifier person people_primary_column_used)
                   (assigned_people_identifiers st))
         people_data.

(** Lines 221-223. *)
Definition available_heads (st : State) : list Dict :=
  let available :=
    filter (λ head,
              not_in (get_identifier head heads_primary_column_used)
                     (processed_heads_identifiers st))
           heads_data in
  if decide (available = []) then heads_data else available.

(** [for person in unassigned_people], lines 226-238. *)
Fixpoint cycle_heads_loop (available : list Dict)
    (unassigned : list Dict) (head_index : nat)
    (results : list Association) : list Association :=
  match unassigned with
  | [] => results
  | person :: unassigned' =>
      let head_index :=
        if decide (length available ≤ head_index) then 0 else head_index in
      let head_to_assign := available !!! head_index in
      cycle_heads_loop available unassigned' (head_index + 1)
        (results ++ [HeadMember head_to_assign person])
  end.

(** Lines 217-245. *)
Definition general_assignment (st : State) : list Association :=
  let unassigned := unassigned_people st in
  if decide (unassigned ≠ []) then
    let available := available_heads st in
    if decide (available ≠ []) then
      cycle_heads_loop available unassigned 0 (grouped_results st)
    else
      grouped_results st ++
      ((λ person,
          MemberOnly person
            "UNASSIGNED (No matching college head or no available head)")
         <$> unassigned)
  else grouped_results st.

Definition college_grouping : Outcome :=
  Grouped
    (general_assignment (unprocessed_heads_loop (colleges_loop initial_state))).
End college_grouping.

(** ** The handler *)

(** What [read_excel_file] returns for one uploaded file; a column name of
    [''] means that no college column was detected. *)
Record Table : Type := mkTable {
  json_data : list Dict;
  primary_column_name : string;
  auto_detected_college_col : string;
}.

(** Lines 118-297: the grouping block, entered with both tables loaded. *)
Definition partition (heads people : Table) : Outcome :=
  if decide (auto_detected_college_col people ≠ "" ∧
             auto_detected_college_col heads ≠ "")
  then
    college_grouping (json_data heads) (json_data people)
      (primary_column_name heads) (primary_column_name people)
      (auto_detected_college_col heads) (auto_detected_college_col people)
  else general_grouping (json_data heads) (json_data people).

(** Lines 112-297: [if st.button("Process and Group")]. *)
Definition process (heads people : Table) : Outcome :=
  if decide (json_data people = []) then Failed PeopleNotLoaded
  else if decide (json_data heads = []) then Failed HeadsNotLoaded
  else partition heads people.

(** ** The examples of the specification *)

Module Examples.
Definition head (name college : string) : Dict :=
  [("Name", name); ("College", college)].
Definition person (name college : string) : Dict :=
  [("Name", name); ("College", college)].

Definition hA := head "A" "X".
Definition hB := head "B" "Y".
Definition p1 := person "p1" "X".
Definition p2 := person "p2" "X".
Definition p3 := person "p3" "Z".

Definition heads3 : Table := mkTable [hA; hB] "Name" "College".
Definition people3 : Table := mkTable [p1; p2; p3] "Name" "College".

(** Example 1: two heads, five people, no college column. *)
Definition plain (name : string) : Dict := [("Name", name)].
Definition heads1 : Table := mkTable [plain "A"; plain "B"] "Name" "".
Definition people1 : Table :=
  mkTable [plain "p1"; plain "p2"; plain "p3"; plain "p4"; plain "p5"]
          "Name" "".

(** Example 2: no heads. *)
Definition heads2 : Table := mkTable [] "" "".
Definition people2 : Table := mkTable [plain "p1"] "Name" "".

(** Two people of college X who carry the same identifier. *)
Definition q1 : Dict := [("Name", "p"); ("College", "X"); ("Room", "1")].
Definition q2 : Dict := [("Name", "p"); ("College", "X"); ("Room", "2")].
Definition heads_dup : Table := mkTable [hA] "Name" "College".
Definition people_dup : Table := mkTable [q1; q2] "Name" "College".

(** Heads read with a primary column that their records do not have; the
    second head has a blank college. *)
Definition gA : Dict := [("College", "X")].
Definition gB : Dict := [("College", " ")].



(** Two people of college X read with a primary column that their records
    do not have. *)
Definition r1 : Dict := [("College", "X"); ("Room", "1")].
Definition r2 : Dict := [("College", "X"); ("Room", "2")].
Definition people_noid2 : Table := mkTable [r1; r2] "Name" "College".
End Examples.


(** ** Even distribution, as the specification words it *)

(** Number of people the [i]-th of [H] heads receives out of [P]. *)
Definition share (H P i : nat) : nat :=
  P / H + (if decide (i < P `mod` H) then 1 else 0).

(** Index of the first person of the [i]-th head. *)
Definition share_start (H P i : nat) : nat :=
  i * (P / H) + i `min` (P `mod` H).

Definition ceil_div (P H : nat) : nat := (P + H - 1) / H.

(** The people of the [i]-th head: a contiguous slice of the people list. *)
Definition head_share (H : nat) (people : list Dict) (i : nat)
  : list Dict :=
  take (share H (length people) i) (drop (share_start H (length people) i) people).

(** The associations of one head, given the people it receives. *)
Definition head_block (status : string) (head : Dict)
    (members : list Dict) : list Association :=
  match members with
  | [] => [HeadOnly head status]
  | _ => HeadMember head <$> members
  end.

Definition even_distribution (status : string) (heads people : list Dict)
  : list Association :=
  concat (imap (λ i head,
                  head_block status head (head_share (length heads) people i))
               heads).

(** Uniform distribution, as the specification words it: with no head the
    operation fails with the configuration error; otherwise the heads are
    taken in their order, the [i]-th of them receives its share of the
    people, cut contiguously from the people list, and a head whose share is
    empty gets one association with the status ["No members assigned"]. *)
Definition uniform_distribution (heads people : list Dict) : Outcome :=
  if decide (length heads = 0) then Failed NoTeamHeads
  else Grouped (even_distribution "No members assigned" heads people).

(** ** The college loops on slices

    The same two loops with the index arithmetic taken out: the members loop
    walks a slice of [people_in_college], the heads loop hands each head the
    next slice. *)

Section slices.
Context (heads_primary_column_used people_primary_column_used : string).
Context (college_name : string).

Fixpoint assign_slice (head : Dict) (slice : list Dict) (st : State)
  : State :=
  match slice with
  | [] => st
  | member :: slice' =>
      assign_slice head slice'
        match get_identifier member people_primary_column_used with
        | Some i =>
            if decide (i ∉ assigned_people_identifiers st)
            then add_assigned i (append_row (HeadMember head member) st)
            else st
        | None => st
        end
  end.

Fixpoint distribute (heads : list Dict) (base_per_head remainder : nat)
    (people : list Dict) (st : State) : State :=
  match heads with
  | [] => st
  | head :: heads' =>
      let st :=
        add_processed (get_identifier head heads_primary_column_used) st in
      let count_for_this_head :=
        if decide (0 < remainder) then base_per_head + 1
        else base_per_head in
      let remainder :=
        if decide (0 < remainder) then remainder - 1 else remainder in
      if decide (count_for_this_head = 0) then
        distribute heads' base_per_head remainder people
          (append_row
             (HeadOnly head ("No members assigned from " +:+ college_name))
             st)
      else
        distribute heads' base_per_head remainder
          (drop count_for_this_head people)
          (assign_slice head (take count_for_this_head people) st)
  end.

(** The members of a slice that the guard of line 182 lets through, given
    the identifiers assigned so far. *)
Fixpoint fresh_members (assigned : gset string) (slice : list Dict)
  : list Dict :=
  match slice with
  | [] => []
  | member :: slice' =>
      match get_identifier member people_primary_column_used with
      | Some i =>
          if decide (i ∉ assigned)
          then member :: fresh_members ({[i]} ∪ assigned) slice'
          else fresh_members assigned slice'
      | None => fresh_members assigned slice'
      end
  end.
End slices.

(** The identifiers that the records of a table carry. *)
Definition identifiers (primary_column : string) (data : list Dict)
  : list string :=
  omap (λ item, get_identifier item primary_column) data.

(** The people of a list of associations, in order. *)
Definition members_of (rows : list Association) : list Dict :=
  omap assoc_member rows.


(** What a stretch of the colleges loop that walks the heads [heads] and the
    people [people] does to the state: which people it lets through, which
    identifiers it records, and which rows it appends. *)
Definition walks (hprimary pprimary : string) (heads people : list Dict)
    (st st' : State) : Prop :=
  let assigned := assigned_people_identifiers st in
  let let_through := fresh_members pprimary assigned people in
  members_of (grouped_results st')
  = members_of (grouped_results st) ++ let_through
  ∧ assigned_people_identifiers st'
    = list_to_set (identifiers pprimary let_through) ∪ assigned
  ∧ grouped_results st ⊆ grouped_results st'
  ∧ (∀ Q : Association → Prop,
       (∀ h m, h ∈ heads → m ∈ people → Q (HeadMember h m)) →
       (∀ h s, h ∈ heads → Q (HeadOnly h s)) →
       Forall Q (grouped_results st) → Forall Q (grouped_results st'))
  ∧ (∀ i, i ∈ processed_heads_identifiers st' →
       i ∈ processed_heads_identifiers st
       ∨ ∃ h, h ∈ heads ∧ get_identifier h hprimary = Some i)
  ∧ (let_through = people →
     ∀ h, h ∈ heads →
       ∃ a, a ∈ grouped_results st' ∧ assoc_head a = Some h).

(** Round-robin pairing, as the specification words it: the [i]-th
    unassigned person goes to candidate head [i mod n]. *)
Definition round_robin (candidates unassigned : list Dict)
  : list Association :=
  imap (λ i person,
          HeadMember (candidates !!! (i `mod` length candidates)) person)
       unassigned.

(** The fields of a record under a prefix, in the record's order. *)
Definition prefixed (prefix : string) (items : Dict) : Dict :=
  (λ field, (prefix +:+ field.1, field.2)) <$> items.

(** A row pairs a head of the heads table with a person of the people
    table, or is a head's status row; it always has a head. *)
Definition from_tables (heads people : list Dict) (a : Association) : Prop :=
  match a with
  | HeadMember head member => head ∈ heads ∧ member ∈ people
  | HeadOnly head _ => head ∈ heads
  | MemberOnly _ _ => False
  end.

(** The state in which the general assignment of lines 214-245 starts. *)
Definition state_after_colleges (heads people : Table) : State :=
  unprocessed_heads_loop (json_data heads) (primary_column_name heads)
    (colleges_loop (json_data heads) (json_data people)
       (primary_column_name heads) (primary_column_name people)
       (auto_detected_college_col heads) (auto_detected_college_col people)
       initial_state).

(** Every record of a table carries an identifier, and no two records carry
    the same one. *)
Definition identified (primary_column : string) (data : list Dict) : Prop :=
  Forall (λ item, is_Some (get_identifier item primary_column)) data
  ∧ NoDup (identifiers primary_column data).

Definition has_member (a : Association) : Prop := is_Some (assoc_member a).

Global Instance has_member_dec a : Decision (has_member a).
Proof. unfold has_member. apply _. Defined.

(** Rewriting the records of a row, and of an outcome: what changes in the
    result when the contents of the records change. *)
Definition map_records (g g' : Dict → Dict) (a : Association)
  : Association :=
  match a with
  | HeadMember head member => HeadMember (g head) (g' member)
  | HeadOnly head status => HeadOnly (g head) status
  | MemberOnly member status => MemberOnly (g' member) status
  end.

Definition map_outcome (g g' : Dict → Dict) (o : Outcome) : Outcome :=
  match o with
  | Failed e => Failed e
  | Grouped rows => Grouped (map_records g g' <$> rows)
  end.

(** ** Reading a table ([read_excel_file], lines 5-66)

    The data frame is what [pd.read_csv] or [pd.read_excel] hands back.  Of
    a cell the function uses two things: whether pandas counts it as
    missing, and the text [astype(str)] gives for it.  Of a column it uses
    the header, whether the dtype is numeric, and the cells.  Headers are
    strings; pandas makes the headers it reads distinct, so [df[header]] is
    the column with that header. *)

Record Cell : Type := mkCell { is_na : bool; as_str : string }.

Record Column : Type := mkColumn {
  header : string;
  numeric_dtype : bool;
  cells : list Cell;
}.

Abbreviation DataFrame := (list Column).

Global Instance Cell_inhabited : Inhabited Cell := populate (mkCell true "nan").

(** [len(df)]: the number of rows. *)
Definition num_rows (df : DataFrame) : nat :=
  match df with
  | [] => 0
  | column :: _ => length (cells column)
  end.

(** Row [i] of [df.astype(str).to_dict(orient='records')]: the dictionary
    built from the pairs (header, text of the cell), in column order. *)
Definition record_at (df : DataFrame) (i : nat) : Dict :=
  foldl (λ row column,
           dict_set (header column) (as_str (cells column !!! i)) row)
        [] df.

Definition to_dict_records (df : DataFrame) : list Dict :=
  record_at df <$> seq 0 (num_rows df).

(** [keyword in lower_header] *)
Fixpoint contains (keyword s : string) : bool :=
  String.prefix keyword s
  || match s with
     | EmptyString => false
     | String _ s' => contains keyword s'
     end.

Definition college_keywords : list string :=
  ["college"; "university"; "institution"; "school"; "uni"].

Definition is_letter (a : ascii) : bool :=
  let n := nat_of_ascii a in
  bool_decide (65 ≤ n ≤ 90 ∨ 97 ≤ n ≤ 122).

(** [re.search('[a-zA-Z]', s)] finds something. *)
Fixpoint has_letter (s : string) : bool :=
  match s with
  | EmptyString => false
  | String a s' => is_letter a || has_letter s'
  end.

(** [for header in df.columns], lines 41-53: the first argument is the part
    of the columns still to visit; falling out of the loop leaves [''], a
    [continue] goes on with the next column, the [break] ends the loop. *)
Fixpoint detect_college_column (columns : list Column) : string :=
  match columns with
  | [] => ""
  | column :: columns' =>
      let lower_header := lower (header column) in
      if existsb (λ keyword, contains keyword lower_header) college_keywords
      then
        if forallb is_na (cells column) then detect_college_column columns'
        else if numeric_dtype column
                && negb (existsb (λ cell, has_letter (as_str cell))
                                 (cells column))
        then detect_college_column columns'
        else header column
      else detect_college_column columns'
  end.

(** What the function gets from the uploaded file: an exception from the
    reader, or a data frame. *)
Inductive Upload : Type :=
| Unreadable
| Parsed (df : DataFrame).

(** The returned triple, as a [Table]; [[], '', ''] on every error path. *)
Definition read_excel_file (upload : Upload) : Table :=
  match upload with
  | Unreadable => mkTable [] "" ""
  | Parsed df =>
      match df with
      | [] => mkTable [] "" ""                       (* [df.empty] *)
      | first_column :: _ =>
          if decide (num_rows df = 0) then mkTable [] "" ""   (* [df.empty] *)
          else
            let json_data := to_dict_records df in
            let primary_column_name := header first_column in
            if decide (primary_column_name = "") then mkTable [] "" ""
            else
              mkTable json_data primary_column_name
                      (detect_college_column df)
      end
  end.

(** ** After the grouping block (lines 300-321) *)

(** What the page shows after a click on "Process and Group". *)
Inductive Screen : Type :=
| ErrorShown (e : Error)
| NoGroupsWarning            (* 'No groups were formed. Check your input data.' *)
| DownloadOffered (rows : list Dict).

Definition on_process_click (heads people : Table) : Screen :=
  match process heads people with
  | Failed e => ErrorShown e
  | Grouped grouped_results =>
      if decide (grouped_results = []) then NoGroupsWarning
      else DownloadOffered (project <$> grouped_results)
  end.

(** The rows the colleges loop appends for one entry of [heads_by_college],
    as the specification words it: status rows when the college has no
    people, an even distribution of its people over its heads otherwise. *)
Definition college_rows (people_by_college : Buckets)
    (entry : string * list Dict) : list Association :=
  let people_in_college := bucket_get entry.1 people_by_college in
  if decide (people_in_college = []) then
    (λ head,
       HeadOnly head
         ("No members from " +:+ entry.1 +:+ " assigned to this head"))
      <$> entry.2
  else
    even_distribution ("No members assigned from " +:+ entry.1) entry.2
      people_in_college.

(** The rows of a round-robin pairing that go to candidate [j]. *)
Definition rows_of_candidate (candidates : list Dict) (j : nat)
    (rows : list Association) : list Association :=
  filter (λ a, assoc_head a = Some (candidates !!! j)) rows.

(** A record whose normalized college is none of the given keys (or that has
    no normalized college). *)
Definition unmatched (college_column : string) (keys : list string)
    (item : Dict) : Prop :=
  normalized_college college_column item ∉ (Some <$> keys).

Global Instance unmatched_dec college_column keys item :
  Decision (unmatched college_column keys item).
Proof. unfold unmatched. apply _. Defined.

(** The rows of the college path, as the specification words them, for
    tables whose records all carry distinct identifiers: the rows of each
    college in the order the colleges occur among the heads, one status row
    for each head without college, and the round-robin pairing of the
    people without a head of their college with the heads without college
    (with all heads, when every head has a college). *)
Definition college_path_rows (heads people : Table) : list Association :=
  let heads_by_college :=
    group_by_college (auto_detected_college_col heads) (json_data heads) in
  let people_by_college :=
    group_by_college (auto_detected_college_col people) (json_data people) in
  let without_college :=
    filter (λ head,
              normalized_college (auto_detected_college_col heads) head = None)
           (json_data heads) in
  concat (college_rows people_by_college <$> heads_by_college)
  ++ ((λ head,
         HeadOnly head
           "No members assigned (No college match or college info)")
        <$> without_college)
  ++ round_robin
       (if decide (without_college = []) then json_data heads
        else without_college)
       (filter (unmatched (auto_detected_college_col people)
                  heads_by_college.*1)
               (json_data people)).

(** A column that the detection loop of lines 41-53 accepts: its header, in
    lower case, contains a keyword; not all of its cells are missing; and it
    is not a numeric column without any letter in its cells. *)
Definition qualifies (column : Column) : bool :=
  existsb (λ keyword, contains keyword (lower (header column)))
          college_keywords
  && negb (forallb is_na (cells column))
  && negb (numeric_dtype column
           && negb (existsb (λ cell, has_letter (as_str cell))
                            (cells column))).

(** ** The two identifier sets, whatever their layout

    The college branch uses [assigned_people_identifiers] and
    [processed_heads_identifiers] through three operations only: [set()],
    [s.add(x)] and [x in s].  It never iterates over them.  What a set of
    strings holds in memory, and the order in which it would hand its
    elements out, depends on the hashes of the strings, which change from
    one run of the interpreter to the next.  A [PySet] is any
    implementation of the three operations in which [in] answers as for a
    set; the layout is left open.  Lists are walked in their order and
    dictionaries in the order their keys were inserted, in every run. *)
Record PySet : Type := mkPySet {
  set_state : Type;
  set_new : set_state;                                 (* set() *)
  set_add : string → set_state → set_state;            (* s.add(x) *)
  set_contains : string → set_state → bool;            (* x in s *)
  set_contains_new : ∀ x, set_contains x set_new = false;
  set_contains_add : ∀ x y s,
    set_contains x (set_add y s) = bool_decide (x = y) || set_contains x s;
}.

(** A family of layouts: the elements in a list, a new element put at the
    position that its hash gives.  The list is the order in which the set
    would be iterated; it changes with the hash. *)
Fixpoint insert_at (position : nat) (x : string) (elements : list string)
  : list string :=
  match position, elements with
  | S position', y :: elements' => y :: insert_at position' x elements'
  | _, _ => x :: elements
  end.

Definition hashed_add (hash : string → nat) (x : string)
    (elements : list string) : list string :=
  if decide (x ∈ elements) then elements
  else insert_at (hash x `mod` (length elements + 1)) x elements.

Definition hashed_set (hash : string → nat) : PySet.
Proof.
  refine (mkPySet (list string) [] (hashed_add hash)
            (λ x elements, bool_decide (x ∈ elements)) _ _).
  - intros x. apply bool_decide_eq_false, not_elem_of_nil.
  - intros x y s. rewrite <- bool_decide_or. apply bool_decide_ext.
    unfold hashed_add. destruct (decide (y ∈ s)) as [Hy|_].
    + split; [by right|]. by intros [->|?].
    + generalize (hash y `mod` (length s + 1)). intros n. revert n.
      induction s as [|z s IH]; intros [|n]; simpl;
        rewrite ?elem_of_cons, ?IH, ?elem_of_cons; tauto.
Defined.

(** ** The handler over any implementation of the sets

    The same code as above, lines 112-297, with the two sets taken in the
    implementation [impl]. *)
Section any_set.
Context (impl : PySet).

Record StateOn : Type := mkStateOn {
  grouped_results_on : list Association;
  assigned_people_identifiers_on : set_state impl;
  processed_heads_identifiers_on : set_state impl;
}.

Definition initial_state_on : StateOn :=
  mkStateOn [] (set_new impl) (set_new impl).

(** [grouped_results.append(row)] *)
Definition append_row_on (a : Association) (st : StateOn) : StateOn :=
  mkStateOn (grouped_results_on st ++ [a])
            (assigned_people_identifiers_on st)
            (processed_heads_identifiers_on st).

(** [assigned_people_identifiers.add(member_id)] *)
Definition add_assigned_on (member_id : string) (st : StateOn) : StateOn :=
  mkStateOn (grouped_results_on st)
            (set_add impl member_id (assigned_people_identifiers_on st))
            (processed_heads_identifiers_on st).

(** [if head_id is not None: processed_heads_identifiers.add(head_id)] *)
Definition add_processed_on (head_id : option string) (st : StateOn)
  : StateOn :=
  match head_id with
  | Some i =>
      mkStateOn (grouped_results_on st) (assigned_people_identifiers_on st)
                (set_add impl i (processed_heads_identifiers_on st))
  | None => st
  end.

(** [identifier not in ids], where the identifier may be [None] and the set
    only ever holds strings. *)
Definition not_in_on (identifier : option string) (ids : set_state impl)
  : bool :=
  match identifier with
  | Some i => negb (set_contains impl i ids)
  | None => true
  end.

Context (heads_data people_data : list Dict).
Context (heads_primary_column_used people_primary_column_used : string).
Context (heads_college_column people_college_column : string).

Section one_college_on.
Context (college_name : string) (people_in_college : list Dict).

Let num_people_in_college := length people_in_college.

(** [for _ in range(count_for_this_head)], lines 177-192. *)
Fixpoint college_members_loop_on (head : Dict)
    (count current_people_index_in_college : nat) (st : StateOn)
  : nat * StateOn :=
  match count with
  | 0 => (current_people_index_in_college, st)
  | S count' =>
      if decide (current_people_index_in_college < num_people_in_college)
      then
        let member :=
          people_in_college !!! current_people_index_in_college in
        let member_id :=
          get_identifier member people_primary_column_used in
        let st :=
          match member_id with
          | Some i =>
              if negb (set_contains impl i (assigned_people_identifiers_on st))
              then add_assigned_on i
                     (append_row_on (HeadMember head member) st)
              else st
          | None => st
          end in
        college_members_loop_on head count'
          (current_people_index_in_college + 1) st
      else (current_people_index_in_college, st)
  end.

(** [for head in heads_in_college], lines 160-192. *)
Fixpoint college_heads_loop_on (heads : list Dict)
    (base_per_head remainder current_people_index_in_college : nat)
    (st : StateOn) : nat * StateOn :=
  match heads with
  | [] => (current_people_index_in_college, st)
  | head :: heads' =>
      let head_id := get_identifier head heads_primary_column_used in
      let st := add_processed_on head_id st in
      let count_for_this_head :=
        if decide (0 < remainder) then base_per_head + 1
        else base_per_head in
      let remainder :=
        if decide (0 < remainder) then remainder - 1 else remainder in
      if decide (count_for_this_head = 0) then
        college_heads_loop_on heads' base_per_head remainder
          current_people_index_in_college
          (append_row_on
             (HeadOnly head ("No members assigned from " +:+ college_name))
             st)
      else
        let '(index, st) :=
          college_members_loop_on head count_for_this_head
            current_people_index_in_college st in
        college_heads_loop_on heads' base_per_head remainder index st
  end.

(** [for head in heads_in_college], lines 194-202. *)
Definition college_without_people_on (heads_in_college : list Dict)
    (st : StateOn) : StateOn :=
  foldl (λ st head,
           let head_id := get_identifier head heads_primary_column_used in
           append_row_on
             (HeadOnly head
                ("No members from " +:+ college_name +:+
                 " assigned to this head"))
             (add_processed_on head_id st))
        st heads_in_college.
End one_college_on.

(** The body of [for college_name, heads_in_college in
    heads_by_college.items()]. *)
Definition college_step_on (people_by_college : Buckets) (st : StateOn)
    (entry : string * list Dict) : StateOn :=
  let '(college_name, heads_in_college) := entry in
  let people_in_college := bucket_get college_name people_by_college in
  if decide (heads_in_college ≠ [] ∧ people_in_college ≠ []) then
    let num_people_in_college := length people_in_college in
    let num_heads_in_college := length heads_in_college in
    let base_per_head := num_people_in_college / num_heads_in_college in
    let remainder := num_people_in_college `mod` num_heads_in_college in
    (college_heads_loop_on college_name people_in_college heads_in_college
       base_per_head remainder 0 st).2
  else if decide (heads_in_college ≠ []) then
    college_without_people_on college_name heads_in_college st
  else st.

Definition colleges_loop_on (st : StateOn) : StateOn :=
  let people_by_college :=
    group_by_college people_college_column people_data in
  let heads_by_college :=
    group_by_college heads_college_column heads_data in
  foldl (college_step_on people_by_college) st heads_by_college.

(** [for head in heads_data], lines 205-212. *)
Definition unprocessed_heads_loop_on (st : StateOn) : StateOn :=
  foldl (λ st head,
           match get_identifier head heads_primary_column_used with
           | Some head_id =>
               if negb (set_contains impl head_id
                          (processed_heads_identifiers_on st))
               then
                 append_row_on
                   (HeadOnly head
                      "No members assigned (No college match or college info)")
                   st
               else st
           | None => st
           end)
        st heads_data.

(** Line 215. *)
Definition unassigned_people_on (st : StateOn) : list Dict :=
  filter (λ person,
            not_in_on (get_identifier person people_primary_column_used)
                      (assigned_people_identifiers_on st))
         people_data.

(** Lines 221-223. *)
Definition available_heads_on (st : StateOn) : list Dict :=
  let available :=
    filter (λ head,
              not_in_on (get_identifier head heads_primary_column_used)
                        (processed_heads_identifiers_on st))
           heads_data in
  if decide (available = []) then heads_data else available.

(** Lines 217-245. *)
Definition general_assignment_on (st : StateOn) : list Association :=
  let unassigned := unassigned_people_on st in
  if decide (unassigned ≠ []) then
    let available := available_heads_on st in
    if decide (available ≠ []) then
      cycle_heads_loop available unassigned 0 (grouped_results_on st)
    else
      grouped_results_on st ++
      ((λ person,
          MemberOnly person
            "UNASSIGNED (No matching college head or no available head)")
         <$> unassigned)
  else grouped_results_on st.

Definition college_grouping_on : Outcome :=
  Grouped
    (general_assignment_on
       (unprocessed_heads_loop_on (colleges_loop_on initial_state_on))).

(** A set of [impl] and a finite set with the same elements; two states
    with the same rows and the same elements in their sets. *)
Definition same_set (ids : set_state impl) (X : gset string) : Prop :=
  ∀ x, set_contains impl x ids = bool_decide (x ∈ X).

Definition same_state (st' : StateOn) (st : State) : Prop :=
  grouped_results_on st' = grouped_results st
  ∧ same_set (assigned_people_identifiers_on st')
             (assigned_people_identifiers st)
  ∧ same_set (processed_heads_identifiers_on st')
             (processed_heads_identifiers st).
End any_set.

(** Lines 118-297 and lines 112-297, over [impl]. *)
Definition partition_on (impl : PySet) (heads people : Table) : Outcome :=
  if decide (auto_detected_college_col people ≠ "" ∧
             auto_detected_college_col heads ≠ "")
  then
    college_grouping_on impl (json_data heads) (json_data people)
      (primary_column_name heads) (primary_column_name people)
      (auto_detected_college_col heads) (auto_detected_college_col people)
  else general_grouping (json_data heads) (json_data people).

Definition process_on (impl : PySet) (heads people : Table) : Outcome :=
  if decide (json_data people = []) then Failed PeopleNotLoaded
  else if decide (json_data heads = []) then Failed HeadsNotLoaded
  else partition_on impl heads people.


(** * Proofs *)

(** ** Arithmetic of shares *)

Lemma share_start_S H P i :
  share_start H P (S i) = share_start H P i + share H P i.
Proof. unfold share_start, share. case_decide; lia. Qed.

Lemma share_start_all H P : 0 < H → share_start H P H = P.
Proof.
  intros HH. unfold share_start.
  pose proof (Nat.div_mod_eq P H). pose proof (Nat.mod_upper_bound P H).
  lia.
Qed.

Lemma share_start_bound H P i :
  0 < H → i < H → share_start H P i + share H P i ≤ P.
Proof.
  intros HH Hi. rewrite <- share_start_S.
  rewrite <- (share_start_all H P HH) at 2.
  unfold share_start. apply Nat.add_le_mono; [|lia].
  apply Nat.mul_le_mono_r. lia.
Qed.

Lemma ceil_div_eq P H :
  0 < H → ceil_div P H = P / H + (if decide (P `mod` H = 0) then 0 else 1).
Proof.
  intros HH. unfold ceil_div.
  pose proof (Nat.div_mod_eq P H) as E.
  pose proof (Nat.mod_upper_bound P H ltac:(lia)) as B.
  set (q := P / H) in *. set (r := P `mod` H) in *.
  case_decide as Hr.
  - symmetry. apply (Nat.div_unique _ _ _ (H - 1)); lia.
  - symmetry. apply (Nat.div_unique _ _ _ (r - 1)); lia.
Qed.

Lemma share_floor_or_ceil H P i :
  0 < H → share H P i = P / H ∨ share H P i = ceil_div P H.
Proof.
  intros HH. rewrite ceil_div_eq by done. unfold share.
  repeat case_decide; lia.
Qed.

Lemma share_larger_iff H P i :
  share H P i = P / H + 1 ↔ i < P `mod` H.
Proof. unfold share. case_decide; lia. Qed.

Lemma length_filter_lt_seq r s n :
  length (filter (λ i, i < r) (seq s n)) = (r - s) `min` n.
Proof.
  revert s. induction n as [|n IH]; intros s; simpl; [lia|].
  rewrite filter_cons. case_decide; simpl; rewrite IH; lia.
Qed.

Lemma count_larger_shares H P :
  0 < H →
  length (filter (λ i, share H P i = P / H + 1) (seq 0 H)) = P `mod` H.
Proof.
  intros HH.
  rewrite (list_filter_iff _ (λ i, i < P `mod` H))
    by (intros i; apply share_larger_iff).
  rewrite length_filter_lt_seq.
  pose proof (Nat.mod_upper_bound P H). lia.
Qed.

Lemma length_head_share H people i :
  0 < H → i < H → length (head_share H people i) = share H (length people) i.
Proof.
  intros HH Hi. unfold head_share. rewrite length_take, length_drop.
  pose proof (share_start_bound H (length people) i HH Hi). lia.
Qed.

Lemma concat_head_shares_upto H people n :
  concat (head_share H people <$> seq 0 n)
  = take (share_start H (length people) n) people.
Proof.
  induction n as [|n IH].
  - simpl. unfold share_start. simpl. by rewrite take_0.
  - rewrite seq_S, fmap_app, concat_app, IH. simpl.
    rewrite app_nil_r. unfold head_share.
    by rewrite take_take_drop, share_start_S.
Qed.

Lemma concat_head_shares H people :
  0 < H → concat (head_share H people <$> seq 0 H) = people.
Proof.
  intros HH. rewrite concat_head_shares_upto, share_start_all by done.
  by rewrite firstn_all.
Qed.

(** ** The loops of the general grouping *)

Lemma drop_lookup_total (l : list Dict) i :
  i < length l → drop i l = (l !!! i) :: drop (S i) l.
Proof.
  intros Hi. apply drop_S. by apply list_lookup_lookup_total_lt.
Qed.

Lemma take_drop_nonempty (l : list Dict) c i :
  0 < c → i + c ≤ length l → take c (drop i l) ≠ [].
Proof.
  intros Hc Hi E. apply (f_equal length) in E.
  rewrite length_take, length_drop in E. simpl in E. lia.
Qed.

Lemma head_block_nonempty status head members :
  members ≠ [] → head_block status head members = HeadMember head <$> members.
Proof. by destruct members. Qed.

Lemma general_members_loop_spec people head count index results :
  index + count ≤ length people →
  general_members_loop people head count index results
  = (index + count,
     results ++ (HeadMember head <$> take count (drop index people))).
Proof.
  revert index results.
  induction count as [|count IH]; intros index results Hle; simpl.
  - by rewrite Nat.add_0_r, app_nil_r.
  - case_decide; [|lia].
    rewrite IH by lia. rewrite (drop_lookup_total people index) by lia.
    simpl. rewrite <- app_assoc. simpl.
    replace (index + 1) with (S index) by lia. f_equal. lia.
Qed.

(** The state of the heads loop, seen from a head [j] places further on. *)
Lemma general_heads_loop_spec people heads base remainder index results :
  remainder ≤ length heads →
  index + base * length heads + remainder ≤ length people →
  general_heads_loop people heads base remainder index results
  = (index + base * length heads + remainder,
     results ++
     concat (imap (λ j head,
                     head_block "No members assigned" head
                       (take (base + (if decide (j < remainder) then 1 else 0))
                             (drop (index + j * base + j `min` remainder)
                                   people)))
                  heads)).
Proof.
  revert remainder index results.
  induction heads as [|head heads IH]; intros remainder index results Hr Hle.
  - simpl in *. rewrite app_nil_r. f_equal. lia.
  - cbn [general_heads_loop imap concat]. simpl in Hr, Hle.
    set (count := if decide (0 < remainder) then base + 1 else base).
    set (remainder' := if decide (0 < remainder) then remainder - 1
                       else remainder).
    assert (Hc : base + (if decide (0 < remainder) then 1 else 0) = count)
      by (unfold count; case_decide; lia).
    assert (Hr' : remainder' ≤ length heads)
      by (unfold remainder'; case_decide; lia).
    assert (Hsum : count + remainder' = base + remainder)
      by (unfold count, remainder'; case_decide; lia).
    assert (Htail :
      imap ((λ j head0,
               head_block "No members assigned" head0
                 (take (base + (if decide (j < remainder) then 1 else 0))
                       (drop (index + j * base + j `min` remainder) people)))
            ∘ S) heads
      = imap (λ j head0,
                head_block "No members assigned" head0
                  (take (base + (if decide (j < remainder') then 1 else 0))
                        (drop (index + count + j * base + j `min` remainder')
                              people)))
             heads).
    { apply imap_ext. intros j h _. unfold compose. f_equal. f_equal.
      - unfold remainder'. repeat case_decide; lia.
      - f_equal. unfold count, remainder'. case_decide; lia. }
    rewrite Htail. clear Htail.
    replace (index + 0 * base + 0 `min` remainder) with index by lia.
    rewrite Hc.
    destruct (decide (count = 0)) as [Hz|Hz].
    + rewrite IH by (try done; lia). rewrite Hz. cbn [take head_block length].
      rewrite <- app_assoc. simpl app. rewrite Nat.add_0_r.
      f_equal. lia.
    + rewrite general_members_loop_spec by lia.
      rewrite IH by (try done; lia).
      rewrite head_block_nonempty by (apply take_drop_nonempty; lia).
      rewrite <- app_assoc. cbn [length]. f_equal. lia.
Qed.

Lemma general_heads_loop_even heads people :
  0 < length heads →
  general_heads_loop people heads
    (length people / length heads) (length people `mod` length heads) 0 []
  = (length people, even_distribution "No members assigned" heads people).
Proof.
  intros HH.
  pose proof (Nat.div_mod_eq (length people) (length heads)) as E.
  pose proof (Nat.mod_upper_bound (length people) (length heads)
                ltac:(lia)) as B.
  rewrite general_heads_loop_spec by lia. rewrite app_nil_l.
  f_equal. lia.
Qed.

Lemma general_grouping_even heads people :
  0 < length heads →
  general_grouping heads people
  = Grouped (even_distribution "No members assigned" heads people).
Proof.
  intros HH. unfold general_grouping. case_decide; [lia|].
  rewrite general_heads_loop_even by done.
  unfold general_leftover. by rewrite Nat.sub_diag.
Qed.

(** The leftover loop, given enough fuel, appends one row without head for
    each person from [people_index] on. *)
Lemma general_leftover_loop_spec people fuel index results :
  length people - index ≤ fuel →
  general_leftover_loop people fuel index results
  = results
    ++ ((λ person, MemberOnly person "UNASSIGNED (No more heads available)")
          <$> drop index people).
Proof.
  revert index results.
  induction fuel as [|fuel IH]; intros index results Hfuel; simpl.
  - rewrite drop_ge by lia. by rewrite app_nil_r.
  - case_decide as Hlt.
    + rewrite IH by lia. rewrite (drop_lookup_total people index) by done.
      rewrite <- app_assoc. simpl.
      by replace (index + 1) with (S index) by lia.
    + rewrite drop_ge by lia. by rewrite app_nil_r.
Qed.

(** ** Buckets *)

Lemma bucket_get_append k college item by_college :
  bucket_get k (bucket_append college item by_college)
  = if decide (k = college) then bucket_get k by_college ++ [item]
    else bucket_get k by_college.
Proof.
  induction by_college as [|[k' items] rest IH]; simpl.
  - repeat case_decide; congruence.
  - destruct (decide (k' = college)) as [->|Hne]; simpl.
    + repeat case_decide; congruence.
    + rewrite IH. repeat case_decide; congruence.
Qed.

Lemma bucket_get_group college_column data k :
  bucket_get k (group_by_college college_column data)
  = filter (λ item, normalized_college college_column item = Some k) data.
Proof.
  unfold group_by_college.
  induction data as [|item data IH] using rev_ind; [done|].
  rewrite foldl_snoc, filter_app, filter_cons, filter_nil.
  destruct (normalized_college college_column item) as [c|] eqn:E.
  - rewrite bucket_get_append, IH.
    repeat case_decide; simplify_eq; try done. by rewrite app_nil_r.
  - rewrite IH. case_decide; [done|]. by rewrite app_nil_r.
Qed.

Lemma bucket_append_nonempty college item by_college :
  Forall (λ entry, entry.2 ≠ []) by_college →
  Forall (λ entry, entry.2 ≠ []) (bucket_append college item by_college).
Proof.
  induction 1 as [|[k items] rest Hk Hrest IH]; simpl.
  - repeat constructor. done.
  - case_decide; constructor; simpl in *; try done.
    by destruct items.
Qed.

Lemma group_by_college_nonempty college_column data :
  Forall (λ entry, entry.2 ≠ []) (group_by_college college_column data).
Proof.
  unfold group_by_college.
  induction data as [|item data IH] using rev_ind; [constructor|].
  rewrite foldl_snoc. destruct (normalized_college college_column item).
  - by apply bucket_append_nonempty.
  - done.
Qed.

Lemma bucket_append_keys college item by_college :
  (bucket_append college item by_college).*1
  = if decide (college ∈ by_college.*1) then by_college.*1
    else by_college.*1 ++ [college].
Proof.
  induction by_college as [|[k items] rest IH]; csimpl.
  - done.
  - destruct (decide (k = college)) as [->|Hne]; csimpl.
    + by rewrite decide_True by left.
    + rewrite IH. destruct (decide (college ∈ rest.*1)) as [Hin|Hin].
      * rewrite decide_True; [done|]. by right.
      * rewrite decide_False; [done|].
        intros [?|?]%elem_of_cons; congruence.
Qed.

Lemma group_by_college_NoDup college_column data :
  NoDup (group_by_college college_column data).*1.
Proof.
  unfold group_by_college.
  induction data as [|item data IH] using rev_ind; [constructor|].
  rewrite foldl_snoc. destruct (normalized_college college_column item); [|done].
  rewrite bucket_append_keys. case_decide as Hin; [done|].
  apply NoDup_app. split_and!; [done| |apply NoDup_singleton].
  intros x Hx ->%list_elem_of_singleton. done.
Qed.

Lemma bucket_get_elem k items by_college :
  NoDup by_college.*1 → (k, items) ∈ by_college →
  bucket_get k by_college = items.
Proof.
  induction by_college as [|[k' items'] rest IH]; simpl.
  - by intros _ ?%elem_of_nil.
  - intros [Hk Hnd]%NoDup_cons [E|Hin]%elem_of_cons.
    + simplify_eq. by rewrite decide_True.
    + case_decide as E; [|by apply IH]. subst k'.
      exfalso. apply Hk. apply list_elem_of_fmap. by exists (k, items).
Qed.

Lemma bucket_get_entry k by_college :
  bucket_get k by_college ≠ [] → (k, bucket_get k by_college) ∈ by_college.
Proof.
  induction by_college as [|[k' items'] rest IH]; simpl; [done|].
  case_decide as E.
  - subst k'. intros _. left.
  - intros H. right. by apply IH.
Qed.

(** Every bucket holds, in table order, the records with its key. *)
Lemma group_by_college_entry college_column data k items :
  (k, items) ∈ group_by_college college_column data →
  items = filter (λ item, normalized_college college_column item = Some k) data
  ∧ items ≠ [].
Proof.
  intros Hin. split.
  - rewrite <- bucket_get_group. symmetry.
    apply bucket_get_elem; [apply group_by_college_NoDup|done].
  - pose proof (group_by_college_nonempty college_column data) as Hall.
    rewrite Forall_forall in Hall. apply (Hall _ Hin).
Qed.

Lemma group_by_college_bucket college_column data item k :
  item ∈ data → normalized_college college_column item = Some k →
  ∃ items, (k, items) ∈ group_by_college college_column data ∧ item ∈ items.
Proof.
  intros Hin Hk.
  assert (Hitem : item ∈ bucket_get k (group_by_college college_column data)).
  { rewrite bucket_get_group. by apply list_elem_of_filter. }
  eexists. split; [|exact Hitem].
  apply bucket_get_entry. intros E. rewrite E in Hitem.
  by apply elem_of_nil in Hitem.
Qed.

(** ** The college loops, slice by slice *)

Section college_loops.
Context (hprimary pprimary : string).

Lemma college_members_loop_slice people_in_college head count index st :
  index + count ≤ length people_in_college →
  college_members_loop pprimary people_in_college head count index st
  = (index + count,
     assign_slice pprimary head (take count (drop index people_in_college))
       st).
Proof.
  revert index st.
  induction count as [|count IH]; intros index st Hle.
  - simpl. by rewrite Nat.add_0_r.
  - cbn [college_members_loop]. case_decide; [|lia].
    rewrite IH by lia.
    rewrite (drop_lookup_total people_in_college index) by lia.
    cbn [take assign_slice].
    replace (index + 1) with (S index) by lia. f_equal. lia.
Qed.

Lemma college_heads_loop_distribute college_name people_in_college heads
    base remainder index st :
  remainder ≤ length heads →
  index + base * length heads + remainder ≤ length people_in_college →
  college_heads_loop hprimary pprimary college_name people_in_college heads
    base remainder index st
  = (index + base * length heads + remainder,
     distribute hprimary pprimary college_name heads base remainder
       (drop index people_in_college) st).
Proof.
  revert remainder index st.
  induction heads as [|head heads IH]; intros remainder index st Hr Hle.
  - simpl in *. f_equal. lia.
  - cbn [college_heads_loop distribute length] in *.
    destruct (decide (0 < remainder)) as [Hpos|Hpos].
    + destruct (decide (base + 1 = 0)) as [?|_]; [lia|].
      rewrite college_members_loop_slice by lia.
      rewrite IH by lia. rewrite drop_drop. f_equal. lia.
    + destruct (decide (base = 0)) as [Hz|Hz].
      * rewrite IH by lia. f_equal. lia.
      * rewrite college_members_loop_slice by lia.
        rewrite IH by lia. rewrite drop_drop. f_equal. lia.
Qed.
End college_loops.

Lemma members_of_app rows1 rows2 :
  members_of (rows1 ++ rows2) = members_of rows1 ++ members_of rows2.
Proof. apply omap_app. Qed.

Lemma members_of_HeadMember head members :
  members_of (HeadMember head <$> members) = members.
Proof.
  unfold members_of. induction members as [|m members IH]; csimpl; [done|].
  by rewrite IH.
Qed.

Lemma members_of_MemberOnly status members :
  members_of ((λ person, MemberOnly person status) <$> members) = members.
Proof.
  unfold members_of. induction members as [|m members IH]; csimpl; [done|].
  by rewrite IH.
Qed.

Lemma identifiers_cons_Some primary item data i :
  get_identifier item primary = Some i →
  identifiers primary (item :: data) = i :: identifiers primary data.
Proof. intros E. unfold identifiers. simpl. by rewrite E. Qed.

Lemma identifiers_cons_None primary item data :
  get_identifier item primary = None →
  identifiers primary (item :: data) = identifiers primary data.
Proof. intros E. unfold identifiers. simpl. by rewrite E. Qed.

Lemma identifiers_app primary data1 data2 :
  identifiers primary (data1 ++ data2)
  = identifiers primary data1 ++ identifiers primary data2.
Proof. apply omap_app. Qed.

Section slice_properties.
Context (hprimary pprimary college_name : string).

Local Notation "'ids_of' l" :=
  (list_to_set (identifiers pprimary l) : gset string)
  (at level 10, l at level 9, only parsing).
Local Notation "'fresh'" := (fresh_members pprimary) (only parsing).

Lemma fresh_members_app assigned slice1 slice2 :
  fresh assigned (slice1 ++ slice2)
  = fresh assigned slice1
    ++ fresh (ids_of (fresh assigned slice1) ∪ assigned) slice2.
Proof.
  revert assigned.
  induction slice1 as [|m slice1 IH]; intros assigned.
  - simpl. by rewrite (left_id_L ∅ (∪)).
  - cbn [app fresh_members].
    destruct (get_identifier m pprimary) as [i|] eqn:E; [|apply IH].
    case_decide; [|apply IH].
    rewrite IH, (identifiers_cons_Some _ _ _ i) by done.
    rewrite <- app_comm_cons. do 3 f_equal. set_solver.
Qed.

Lemma assign_slice_results head slice st :
  grouped_results (assign_slice pprimary head slice st)
  = grouped_results st
    ++ (HeadMember head <$> fresh (assigned_people_identifiers st) slice).
Proof.
  revert st. induction slice as [|m slice IH]; intros st.
  - simpl. by rewrite app_nil_r.
  - cbn [assign_slice fresh_members].
    destruct (get_identifier m pprimary) as [i|] eqn:E; [|apply IH].
    case_decide; [|apply IH].
    rewrite IH. simpl. by rewrite <- app_assoc.
Qed.

Lemma assign_slice_assigned head slice st :
  assigned_people_identifiers (assign_slice pprimary head slice st)
  = ids_of (fresh (assigned_people_identifiers st) slice)
    ∪ assigned_people_identifiers st.
Proof.
  revert st. induction slice as [|m slice IH]; intros st.
  - simpl. by rewrite (left_id_L ∅ (∪)).
  - cbn [assign_slice fresh_members].
    destruct (get_identifier m pprimary) as [i|] eqn:E; [|apply IH].
    case_decide; [|apply IH].
    rewrite IH, (identifiers_cons_Some _ _ _ i) by done.
    simpl. set_solver.
Qed.

Lemma assign_slice_processed head slice st :
  processed_heads_identifiers (assign_slice pprimary head slice st)
  = processed_heads_identifiers st.
Proof.
  revert st. induction slice as [|m slice IH]; intros st; [done|].
  cbn [assign_slice]. rewrite IH.
  destruct (get_identifier m pprimary); [|done]. by case_decide.
Qed.

Lemma add_processed_results head_id st :
  grouped_results (add_processed head_id st) = grouped_results st.
Proof. by destruct head_id. Qed.

Lemma add_processed_assigned head_id st :
  assigned_people_identifiers (add_processed head_id st)
  = assigned_people_identifiers st.
Proof. by destruct head_id. Qed.

(** The heads loop lets through exactly the fresh members of the people
    it walks, in order. *)
Lemma distribute_members heads base remainder people st :
  remainder ≤ length heads →
  let walked := take (base * length heads + remainder) people in
  let st' := distribute hprimary pprimary college_name heads base remainder
               people st in
  members_of (grouped_results st')
  = members_of (grouped_results st)
    ++ fresh (assigned_people_identifiers st) walked
  ∧ assigned_people_identifiers st'
    = ids_of (fresh (assigned_people_identifiers st) walked)
      ∪ assigned_people_identifiers st.
Proof.
  revert remainder people st.
  induction heads as [|head heads IH]; intros remainder people st Hr.
  - simpl in *. replace (base * 0 + remainder) with 0 by lia.
    rewrite take_0. simpl. rewrite app_nil_r.
    by rewrite (left_id_L ∅ (∪)).
  - cbn [distribute length] in *. cbv zeta.
    set (st1 := add_processed (get_identifier head hprimary) st).
    set (count := if decide (0 < remainder) then base + 1 else base).
    set (remainder' := if decide (0 < remainder) then remainder - 1
                       else remainder).
    assert (Hr' : remainder' ≤ length heads)
      by (unfold remainder'; case_decide; lia).
    assert (Hsum : count + (base * length heads + remainder')
                   = base * S (length heads) + remainder)
      by (unfold count, remainder'; case_decide; lia).
    assert (HA : assigned_people_identifiers st1
                 = assigned_people_identifiers st)
      by apply add_processed_assigned.
    assert (HR : grouped_results st1 = grouped_results st)
      by apply add_processed_results.
    rewrite <- Hsum, <- take_take_drop, fresh_members_app.
    destruct (decide (count = 0)) as [Hz|Hz].
    + destruct (IH remainder' people
                  (append_row
                     (HeadOnly head ("No members assigned from " +:+ college_name))
                     st1) Hr') as [IH1 IH2].
      rewrite IH1, IH2. clear IH1 IH2. rewrite Hz. simpl.
      rewrite HA, HR, members_of_app. simpl.
      rewrite app_nil_r, !(left_id_L ∅ (∪)). by rewrite drop_0.
    + destruct (IH remainder' (drop count people)
                  (assign_slice pprimary head (take count people) st1) Hr')
        as [IH1 IH2].
      rewrite IH1, IH2. clear IH1 IH2.
      rewrite assign_slice_results, assign_slice_assigned, HA, HR.
      rewrite members_of_app, members_of_HeadMember, <- app_assoc.
      split; [done|].
      rewrite identifiers_app, list_to_set_app_L. set_solver.
Qed.
End slice_properties.

Section slice_rows.
Context (hprimary pprimary college_name : string).

Lemma fresh_members_elem assigned slice m :
  m ∈ fresh_members pprimary assigned slice → m ∈ slice.
Proof.
  revert assigned. induction slice as [|x slice IH]; intros assigned; [done|].
  cbn [fresh_members]. destruct (get_identifier x pprimary).
  - case_decide.
    + intros [->|?]%elem_of_cons; [left|right; eauto].
    + right; eauto.
  - right; eauto.
Qed.

Lemma fresh_members_length assigned slice :
  length (fresh_members pprimary assigned slice) ≤ length slice.
Proof.
  revert assigned. induction slice as [|x slice IH]; intros assigned; [done|].
  cbn [fresh_members]. destruct (get_identifier x pprimary).
  - case_decide; simpl.
    + specialize (IH ({[s]} ∪ assigned)). lia.
    + specialize (IH assigned). lia.
  - specialize (IH assigned). simpl. lia.
Qed.

(** When nothing of [slice1 ++ slice2] is held back, nothing of either
    part is. *)
Lemma fresh_members_all_app assigned slice1 slice2 :
  fresh_members pprimary assigned (slice1 ++ slice2) = slice1 ++ slice2 →
  fresh_members pprimary assigned slice1 = slice1
  ∧ fresh_members pprimary
      (list_to_set (identifiers pprimary slice1) ∪ assigned) slice2
    = slice2.
Proof.
  rewrite fresh_members_app. intros E.
  pose proof (fresh_members_length assigned slice1) as L1.
  pose proof (fresh_members_length
                (list_to_set
                   (identifiers pprimary
                      (fresh_members pprimary assigned slice1)) ∪ assigned)
                slice2) as L2.
  pose proof (f_equal length E) as L. rewrite !length_app in L.
  apply app_inj_1 in E as [E1 E2]; [|lia].
  split; [done|]. by rewrite E1 in E2.
Qed.

Lemma assign_slice_rows (Q : Association → Prop) head slice st :
  (∀ m, m ∈ slice → Q (HeadMember head m)) →
  Forall Q (grouped_results st) →
  Forall Q (grouped_results (assign_slice pprimary head slice st)).
Proof.
  intros HQ Hst. rewrite assign_slice_results. apply Forall_app. split; [done|].
  apply Forall_fmap, Forall_forall. intros m Hm. simpl.
  apply HQ. by eapply fresh_members_elem.
Qed.

Lemma distribute_rows (Q : Association → Prop) heads base remainder people st :
  (∀ h m, h ∈ heads → m ∈ people → Q (HeadMember h m)) →
  (∀ h s, h ∈ heads → Q (HeadOnly h s)) →
  Forall Q (grouped_results st) →
  Forall Q (grouped_results
              (distribute hprimary pprimary college_name heads base remainder
                 people st)).
Proof.
  revert remainder people st.
  induction heads as [|head heads IH]; intros remainder people st HM HO Hst;
    [done|].
  cbn [distribute]. cbv zeta.
  assert (Hst1 : Forall Q (grouped_results
                             (add_processed (get_identifier head hprimary) st)))
    by by rewrite add_processed_results.
  case_decide.
  - apply IH.
    + intros h m Hh Hm. apply HM; [by right|done].
    + intros h s Hh. apply HO. by right.
    + simpl. apply Forall_app. split; [done|].
      repeat constructor. apply HO. left.
  - apply IH.
    + intros h m Hh Hm. apply HM; [by right|].
      by eapply elem_of_sublist, sublist_drop.
    + intros h s Hh. apply HO. by right.
    + apply assign_slice_rows; [|done].
      intros m Hm. apply HM; [left|]. by eapply elem_of_sublist, sublist_take.
Qed.

Lemma assign_slice_grows head slice st :
  grouped_results st ⊆ grouped_results (assign_slice pprimary head slice st).
Proof.
  rewrite assign_slice_results. intros a Ha. apply elem_of_app. by left.
Qed.

Lemma append_row_grows a st :
  grouped_results st ⊆ grouped_results (append_row a st).
Proof. intros x Hx. simpl. apply elem_of_app. by left. Qed.

Lemma distribute_grows heads base remainder people st :
  grouped_results st
  ⊆ grouped_results
      (distribute hprimary pprimary college_name heads base remainder
         people st).
Proof.
  revert remainder people st.
  induction heads as [|head heads IH]; intros remainder people st; [done|].
  cbn [distribute]. cbv zeta.
  case_decide; (etrans; [|apply IH]).
  - etrans; [|apply append_row_grows]. by rewrite add_processed_results.
  - etrans; [|apply assign_slice_grows]. by rewrite add_processed_results.
Qed.

Lemma distribute_processed heads base remainder people st i :
  i ∈ processed_heads_identifiers
        (distribute hprimary pprimary college_name heads base remainder
           people st) →
  i ∈ processed_heads_identifiers st
  ∨ ∃ h, h ∈ heads ∧ get_identifier h hprimary = Some i.
Proof.
  revert remainder people st.
  induction heads as [|head heads IH]; intros remainder people st; [by left|].
  cbn [distribute]. cbv zeta.
  assert (Hadd : ∀ j,
    j ∈ processed_heads_identifiers
          (add_processed (get_identifier head hprimary) st) →
    j ∈ processed_heads_identifiers st
    ∨ get_identifier head hprimary = Some j).
  { intros j. destruct (get_identifier head hprimary); simpl; [|by left].
    set_solver. }
  case_decide; intros [Hi|(h & Hh & Hid)]%IH.
  - simpl in Hi. apply Hadd in Hi as [?|?]; [by left|right].
    exists head. split; [left|done].
  - right. exists h. split; [by right|done].
  - rewrite assign_slice_processed in Hi.
    apply Hadd in Hi as [?|?]; [by left|right].
    exists head. split; [left|done].
  - right. exists h. split; [by right|done].
Qed.

(** With no member held back, every head of the college gets a row. *)
Lemma distribute_served heads base remainder people st :
  remainder ≤ length heads →
  base * length heads + remainder ≤ length people →
  let walked := take (base * length heads + remainder) people in
  fresh_members pprimary (assigned_people_identifiers st) walked = walked →
  ∀ h, h ∈ heads →
    ∃ a, a ∈ grouped_results
               (distribute hprimary pprimary college_name heads base
                  remainder people st)
         ∧ assoc_head a = Some h.
Proof.
  revert remainder people st.
  induction heads as [|head heads IH];
    intros remainder people st Hr Hlen walked Hfresh h Hh.
  { by apply elem_of_nil in Hh. }
  subst walked. cbn [distribute length] in *. cbv zeta.
  set (st1 := add_processed (get_identifier head hprimary) st).
  set (count := if decide (0 < remainder) then base + 1 else base).
  set (remainder' := if decide (0 < remainder) then remainder - 1
                     else remainder).
  assert (Hr' : remainder' ≤ length heads)
    by (unfold remainder'; case_decide; lia).
  assert (Hsum : count + (base * length heads + remainder')
                 = base * S (length heads) + remainder)
    by (unfold count, remainder'; case_decide; lia).
  assert (HA : assigned_people_identifiers st1
               = assigned_people_identifiers st)
    by apply add_processed_assigned.
  rewrite <- Hsum, <- take_take_drop in Hfresh.
  apply fresh_members_all_app in Hfresh as [Hf1 Hf2].
  destruct (decide (count = 0)) as [Hz|Hz].
  - apply elem_of_cons in Hh as [->|Hh].
    + exists (HeadOnly head ("No members assigned from " +:+ college_name)).
      split; [|done]. apply distribute_grows. simpl.
      apply elem_of_app. right. left.
    + apply IH; try done; [lia|].
      rewrite Hz in Hf2. simpl in Hf2.
      rewrite (left_id_L ∅ (∪)), drop_0 in Hf2. simpl. by rewrite HA.
  - apply elem_of_cons in Hh as [->|Hh].
    + destruct (take count people) as [|m slice] eqn:Eslice.
      { exfalso. apply (f_equal length) in Eslice.
        rewrite length_take in Eslice. simpl in Eslice. lia. }
      exists (HeadMember head m). split; [|done].
      apply distribute_grows. rewrite assign_slice_results, HA, Hf1.
      apply elem_of_app. right. left.
    + apply IH; try done.
      * rewrite length_drop. lia.
      * rewrite assign_slice_assigned, HA, Hf1. done.
Qed.
End slice_rows.

(** ** The colleges loop *)

Section colleges.
Context (hprimary pprimary : string).

Lemma walks_nil st : walks hprimary pprimary [] [] st st.
Proof.
  unfold walks. simpl. split_and!; try done.
  - by rewrite app_nil_r.
  - by rewrite (left_id_L ∅ (∪)).
  - by left.
  - intros _ h Hh. by apply elem_of_nil in Hh.
Qed.

Lemma walks_app heads1 people1 heads2 people2 st st1 st2 :
  walks hprimary pprimary heads1 people1 st st1 →
  walks hprimary pprimary heads2 people2 st1 st2 →
  walks hprimary pprimary (heads1 ++ heads2) (people1 ++ people2) st st2.
Proof.
  unfold walks. cbv zeta.
  intros (M1 & A1 & G1 & Q1 & P1 & S1) (M2 & A2 & G2 & Q2 & P2 & S2).
  rewrite fresh_members_app, <- A1. split_and!.
  - by rewrite M2, M1, <- app_assoc.
  - rewrite A2, identifiers_app, list_to_set_app_L, A1. set_solver.
  - by etrans.
  - intros Q HM HO Hst. apply Q2, Q1; try done.
    + intros h m Hh Hm. apply HM; apply elem_of_app; by right.
    + intros h s Hh. apply HO. apply elem_of_app; by right.
    + intros h m Hh Hm. apply HM; apply elem_of_app; by left.
    + intros h s Hh. apply HO. apply elem_of_app; by left.
  - intros i [Hi|(h & Hh & Hid)]%P2.
    + apply P1 in Hi as [?|(h & Hh & Hid)]; [by left|right].
      exists h. split; [|done]. apply elem_of_app. by left.
    + right. exists h. split; [|done]. apply elem_of_app. by right.
  - intros E h Hh.
    assert (E1 : fresh_members pprimary (assigned_people_identifiers st)
                   people1 = people1
                 ∧ fresh_members pprimary (assigned_people_identifiers st1)
                     people2 = people2).
    { pose proof (fresh_members_length pprimary
                    (assigned_people_identifiers st) people1) as L1.
      pose proof (fresh_members_length pprimary
                    (assigned_people_identifiers st1) people2) as L2.
      pose proof (f_equal length E) as L. rewrite !length_app in L.
      apply app_inj_1 in E; [done|lia]. }
    destruct E1 as [E1 E2].
    apply elem_of_app in Hh as [Hh|Hh].
    + destruct (S1 E1 h Hh) as (a & Ha & Hhead). exists a. split; [|done].
      by apply G2.
    + by apply S2.
Qed.

Lemma distribute_walks college_name heads people st :
  heads ≠ [] →
  walks hprimary pprimary heads people st
    (distribute hprimary pprimary college_name heads
       (length people / length heads) (length people `mod` length heads)
       people st).
Proof.
  intros Hne.
  assert (HH : 0 < length heads) by (destruct heads; simpl; [done|lia]).
  pose proof (Nat.div_mod_eq (length people) (length heads)) as E.
  pose proof (Nat.mod_upper_bound (length people) (length heads)
                ltac:(lia)) as B.
  set (base := length people / length heads) in *.
  set (remainder := length people `mod` length heads) in *.
  assert (Hwalked : take (base * length heads + remainder) people = people)
    by (apply take_ge; lia).
  destruct (distribute_members hprimary pprimary college_name heads base
              remainder people st ltac:(lia)) as [HM HA].
  rewrite Hwalked in HM, HA.
  unfold walks. cbv zeta. split_and!; try done.
  - apply distribute_grows.
  - intros Q. apply distribute_rows.
  - intros i. apply distribute_processed.
  - intros Hfresh. apply distribute_served; [lia|lia|].
    cbv zeta. by rewrite Hwalked.
Qed.

Lemma college_without_people_walks college_name heads st :
  walks hprimary pprimary heads [] st
    (college_without_people hprimary college_name heads st).
Proof.
  unfold college_without_people. revert st.
  induction heads as [|head heads IH]; intros st; [apply walks_nil|].
  cbn [foldl].
  eapply (walks_app [head] [] heads []); [|apply IH].
  unfold walks. cbv zeta. simpl.
  rewrite add_processed_results, add_processed_assigned.
  split_and!.
  - by rewrite members_of_app, !app_nil_r.
  - by rewrite (left_id_L ∅ (∪)).
  - intros a Ha. apply elem_of_app. by left.
  - intros Q _ HO Hst. apply Forall_app. split; [done|].
    repeat constructor. apply HO. left.
  - intros i. destruct (get_identifier head hprimary) as [j|] eqn:Ej; simpl.
    + intros [->%elem_of_singleton|?]%elem_of_union; [right|by left].
      exists head. split; [left|done].
    + by left.
  - intros _ h ->%list_elem_of_singleton.
    eexists (HeadOnly head _). split; [|done].
    apply elem_of_app. right. left.
Qed.

Lemma college_step_walks people_by_college st college_name heads :
  heads ≠ [] →
  walks hprimary pprimary heads (bucket_get college_name people_by_college)
    st
    (college_step hprimary pprimary people_by_college st
       (college_name, heads)).
Proof.
  intros Hne. unfold college_step.
  set (people := bucket_get college_name people_by_college).
  destruct (decide (heads ≠ [] ∧ people ≠ [])) as [[_ Hp]|Hno].
  - assert (HH : 0 < length heads) by (destruct heads; simpl; [done|lia]).
    pose proof (Nat.div_mod_eq (length people) (length heads)) as E.
    pose proof (Nat.mod_upper_bound (length people) (length heads)
                  ltac:(lia)) as B.
    rewrite college_heads_loop_distribute by lia.
    cbn [snd]. rewrite drop_0. by apply distribute_walks.
  - rewrite decide_True by done.
    assert (people = []) as ->.
    { destruct people; [done|]. exfalso. apply Hno. done. }
    apply college_without_people_walks.
Qed.

(** The whole loop walks the heads of every bucket and, for each, the
    people bucket of the same key. *)
Lemma colleges_walk people_by_college heads_by_college st :
  Forall (λ entry, entry.2 ≠ []) heads_by_college →
  walks hprimary pprimary
    (concat heads_by_college.*2)
    (concat ((λ entry, bucket_get entry.1 people_by_college)
               <$> heads_by_college))
    st
    (foldl (college_step hprimary pprimary people_by_college) st
           heads_by_college).
Proof.
  intros Hall. revert st.
  induction Hall as [|[college_name heads] entries Hne _ IH]; intros st.
  - apply walks_nil.
  - csimpl. eapply walks_app; [|apply IH].
    by apply college_step_walks.
Qed.
End colleges.

(** ** Heads left over, people left over *)

Section leftovers.
Context (heads_data people_data : list Dict).
Context (hprimary pprimary : string).

Lemma unprocessed_heads_fold heads st :
  let st' :=
    foldl (λ st head,
             match get_identifier head hprimary with
             | Some head_id =>
                 if decide (head_id ∉ processed_heads_identifiers st) then
                   append_row
                     (HeadOnly head
                        "No members assigned (No college match or college info)")
                     st
                 else st
             | None => st
             end) st heads in
  members_of (grouped_results st') = members_of (grouped_results st)
  ∧ assigned_people_identifiers st' = assigned_people_identifiers st
  ∧ processed_heads_identifiers st' = processed_heads_identifiers st
  ∧ grouped_results st ⊆ grouped_results st'
  ∧ (∀ Q : Association → Prop,
       (∀ h s, h ∈ heads → Q (HeadOnly h s)) →
       Forall Q (grouped_results st) → Forall Q (grouped_results st'))
  ∧ (∀ h i, h ∈ heads → get_identifier h hprimary = Some i →
       i ∉ processed_heads_identifiers st →
       ∃ a, a ∈ grouped_results st' ∧ assoc_head a = Some h).
Proof.
  revert st. induction heads as [|head heads IH]; intros st.
  - simpl. split_and!; try done. intros h i Hh. by apply elem_of_nil in Hh.
  - cbn [foldl]. cbv zeta.
    set (st1 := match get_identifier head hprimary with
                | Some head_id =>
                    if decide (head_id ∉ processed_heads_identifiers st) then
                      append_row
                        (HeadOnly head
                           "No members assigned (No college match or college info)")
                        st
                    else st
                | None => st
                end).
    destruct (IH st1) as (M & A & P & G & Q & S).
    assert (M1 : members_of (grouped_results st1)
                 = members_of (grouped_results st)).
    { unfold st1. destruct (get_identifier head hprimary); [|done].
      case_decide; [|done]. simpl. rewrite members_of_app. simpl.
      by rewrite app_nil_r. }
    assert (A1 : assigned_people_identifiers st1
                 = assigned_people_identifiers st).
    { unfold st1. destruct (get_identifier head hprimary); [|done].
      by case_decide. }
    assert (P1 : processed_heads_identifiers st1
                 = processed_heads_identifiers st).
    { unfold st1. destruct (get_identifier head hprimary); [|done].
      by case_decide. }
    assert (G1 : grouped_results st ⊆ grouped_results st1).
    { unfold st1. destruct (get_identifier head hprimary); [|done].
      case_decide; [|done]. apply append_row_grows. }
    split_and!.
    + by rewrite M.
    + by rewrite A.
    + by rewrite P.
    + by etrans.
    + intros Q0 HO Hst. apply Q.
      * intros h s Hh. apply HO. by right.
      * unfold st1. destruct (get_identifier head hprimary); [|done].
        case_decide; [|done]. simpl. apply Forall_app. split; [done|].
        repeat constructor. apply HO. left.
    + intros h i [->|Hh]%elem_of_cons Hid Hi.
      * eexists (HeadOnly head _). split; [|done]. apply G.
        unfold st1. rewrite Hid, decide_True by done. simpl.
        apply elem_of_app. right. left.
      * apply (S h i); try done. by rewrite P1.
Qed.

Lemma cycle_heads_loop_spec available unassigned head_index results :
  available ≠ [] → head_index ≤ length available →
  cycle_heads_loop available unassigned head_index results
  = results
    ++ imap (λ i person,
               HeadMember
                 (available !!! ((head_index + i) `mod` length available))
                 person)
            unassigned.
Proof.
  intros Hne. revert head_index results.
  assert (Hn : length available ≠ 0) by (by destruct available).
  induction unassigned as [|person unassigned IH];
    intros head_index results Hle.
  - simpl. by rewrite app_nil_r.
  - cbn [cycle_heads_loop imap]. cbv zeta.
    set (k := if decide (length available ≤ head_index) then 0
              else head_index).
    assert (Hk : k = head_index `mod` length available).
    { unfold k. case_decide.
      - replace head_index with (length available) by lia.
        by rewrite Nat.Div0.mod_same.
      - rewrite Nat.mod_small; lia. }
    assert (Hlt : k < length available)
      by (rewrite Hk; apply Nat.mod_upper_bound; done).
    rewrite IH by lia. rewrite <- app_assoc. cbn [app].
    rewrite Nat.add_0_r, <- Hk. do 2 f_equal.
    apply imap_ext. intros i p _. unfold compose. do 2 f_equal.
    rewrite Hk. replace (head_index + S i) with (head_index + (1 + i)) by lia.
    rewrite <- Nat.add_assoc.
    by rewrite Nat.Div0.add_mod_idemp_l.
Qed.

Lemma available_heads_nonempty st :
  heads_data ≠ [] → available_heads heads_data hprimary st ≠ [].
Proof. intros Hne. unfold available_heads. by case_decide. Qed.

Lemma available_heads_subseteq st :
  available_heads heads_data hprimary st ⊆ heads_data.
Proof.
  unfold available_heads. case_decide; [done|].
  apply list_subseteq_filter.
Qed.

Lemma general_assignment_round_robin st :
  heads_data ≠ [] →
  general_assignment heads_data people_data hprimary pprimary st
  = grouped_results st
    ++ round_robin (available_heads heads_data hprimary st)
                   (unassigned_people people_data pprimary st).
Proof.
  intros Hne. unfold general_assignment.
  pose proof (available_heads_nonempty st Hne) as Hav.
  destruct (decide (unassigned_people people_data pprimary st ≠ []))
    as [Hun|Hun].
  - rewrite decide_True by done.
    by rewrite cycle_heads_loop_spec by (try done; lia).
  - apply dec_stable in Hun. rewrite Hun. simpl. by rewrite app_nil_r.
Qed.

Lemma members_of_imap_HeadMember (f : nat → Dict) members :
  members_of (imap (λ i person, HeadMember (f i) person) members) = members.
Proof.
  revert f. induction members as [|m members IH]; intros f; [done|].
  unfold members_of in *. csimpl. f_equal.
  apply (IH (f ∘ S)).
Qed.

Lemma general_assignment_members st :
  members_of (general_assignment heads_data people_data hprimary pprimary st)
  = members_of (grouped_results st)
    ++ unassigned_people people_data pprimary st.
Proof.
  unfold general_assignment.
  destruct (decide (unassigned_people people_data pprimary st ≠ []))
    as [Hun|Hun].
  - destruct (decide (available_heads heads_data hprimary st ≠ []))
      as [Hav|Hav].
    + rewrite cycle_heads_loop_spec by (try done; lia).
      by rewrite members_of_app, members_of_imap_HeadMember.
    + by rewrite members_of_app, members_of_MemberOnly.
  - apply dec_stable in Hun. rewrite Hun. by rewrite app_nil_r.
Qed.

End leftovers.

(** ** Rows of an even distribution *)

Lemma elem_of_concat {A} (x : A) (ls : list (list A)) :
  x ∈ concat ls ↔ ∃ l, l ∈ ls ∧ x ∈ l.
Proof.
  induction ls as [|l ls IH]; simpl.
  - split; [by intros ?%elem_of_nil|]. by intros (l & ?%elem_of_nil & _).
  - rewrite elem_of_app, IH. split.
    + intros [Hx|(l' & Hl' & Hx)].
      * exists l. split; [left|done].
      * exists l'. split; [by right|done].
    + intros (l' & [->|Hl']%elem_of_cons & Hx); [by left|right; eauto].
Qed.

Lemma members_of_concat blocks :
  members_of (concat blocks) = concat (members_of <$> blocks).
Proof.
  induction blocks as [|b blocks IH]; [done|].
  csimpl. by rewrite members_of_app, IH.
Qed.

Lemma members_of_head_block status head members :
  members_of (head_block status head members) = members.
Proof.
  destruct members as [|m members]; [done|].
  apply (members_of_HeadMember head (m :: members)).
Qed.

Lemma imap_index_only {A B} (g : nat → B) (l : list A) :
  imap (λ i _, g i) l = g <$> seq 0 (length l).
Proof.
  revert g. induction l as [|x l IH]; intros g; [done|].
  csimpl. f_equal. rewrite <- fmap_S_seq, <- list_fmap_compose.
  apply (IH (g ∘ S)).
Qed.

Lemma even_distribution_members status heads people :
  0 < length heads →
  members_of (even_distribution status heads people) = people.
Proof.
  intros HH. unfold even_distribution.
  rewrite members_of_concat, fmap_imap.
  rewrite (imap_ext _ (λ i _, head_share (length heads) people i))
    by (intros; apply members_of_head_block).
  rewrite imap_index_only. by apply concat_head_shares.
Qed.

Lemma even_distribution_rows (Q : Association → Prop) status heads people :
  (∀ h m, h ∈ heads → m ∈ people → Q (HeadMember h m)) →
  (∀ h, h ∈ heads → Q (HeadOnly h status)) →
  Forall Q (even_distribution status heads people).
Proof.
  intros HM HO. apply Forall_forall. intros a Ha.
  unfold even_distribution in Ha.
  apply elem_of_concat in Ha as (block & Hblock & Ha).
  apply elem_of_lookup_imap in Hblock as (i & h & -> & Hi).
  assert (Hh : h ∈ heads) by (by eapply list_elem_of_lookup_2).
  unfold head_block in Ha.
  destruct (head_share (length heads) people i) as [|m ms] eqn:E.
  - apply list_elem_of_singleton in Ha as ->. by apply HO.
  - apply list_elem_of_fmap in Ha as (m' & -> & Hm'). apply HM; [done|].
    rewrite <- E in Hm'. unfold head_share in Hm'.
    eapply elem_of_sublist; [|apply sublist_drop].
    eapply elem_of_sublist; [exact Hm'|apply sublist_take].
Qed.

Lemma even_distribution_served status heads people h :
  h ∈ heads →
  ∃ a, a ∈ even_distribution status heads people ∧ assoc_head a = Some h.
Proof.
  intros (i & Hi)%list_elem_of_lookup_1.
  set (block := head_block status h (head_share (length heads) people i)).
  assert (Hblock : block ∈ imap (λ i head,
                      head_block status head
                        (head_share (length heads) people i)) heads).
  { apply elem_of_lookup_imap. by exists i, h. }
  assert (Ha : ∃ a, a ∈ block ∧ assoc_head a = Some h).
  { unfold block, head_block.
    destruct (head_share (length heads) people i) as [|m ms].
    - eexists. split; [left|done].
    - exists (HeadMember h m). split; [left|done]. }
  destruct Ha as (a & Ha & Hhead). exists a. split; [|done].
  apply elem_of_concat. by exists block.
Qed.

(** ** The general path: C1, C4, C5, C6, C9 *)

Lemma partition_general heads people :
  auto_detected_college_col heads = ""
  ∨ auto_detected_college_col people = "" →
  partition heads people
  = general_grouping (json_data heads) (json_data people).
Proof.
  intros Hno. unfold partition. case_decide as Hboth; [|done].
  destruct Hboth, Hno; congruence.
Qed.

(** C1.  On the general path with at least one head, the rows are those of
    the even distribution: head [i] gets the slice of [share H P i] people
    that starts at [share_start H P i]; a share is the floor or the ceiling
    of [P / H]; the heads with the larger share [P / H + 1] are those with
    [i < P mod H], there are [P mod H] of them; and the slices, in head
    order, make up the people list. *)
Theorem general_path_even_distribution (heads people : Table) :
  auto_detected_college_col heads = ""
  ∨ auto_detected_college_col people = "" →
  1 ≤ length (json_data heads) →
  partition heads people
  = Grouped (even_distribution "No members assigned"
               (json_data heads) (json_data people))
  ∧ (∀ i, i < length (json_data heads) →
       length (head_share (length (json_data heads)) (json_data people) i)
       = share (length (json_data heads)) (length (json_data people)) i
       ∧ (share (length (json_data heads)) (length (json_data people)) i
          = length (json_data people) / length (json_data heads)
          ∨ share (length (json_data heads)) (length (json_data people)) i
            = ceil_div (length (json_data people)) (length (json_data heads)))
       ∧ (share (length (json_data heads)) (length (json_data people)) i
          = length (json_data people) / length (json_data heads) + 1
          ↔ i < length (json_data people) `mod` length (json_data heads)))
  ∧ length (filter (λ i, share (length (json_data heads))
                           (length (json_data people)) i
                         = length (json_data people)
                           / length (json_data heads) + 1)
              (seq 0 (length (json_data heads))))
    = length (json_data people) `mod` length (json_data heads)
  ∧ concat (head_share (length (json_data heads)) (json_data people)
              <$> seq 0 (length (json_data heads)))
    = json_data people.
Proof.
  intros Hno HH. split_and!.
  - rewrite partition_general by done. apply general_grouping_even. lia.
  - intros i Hi. split_and!.
    + apply length_head_share; lia.
    + apply share_floor_or_ceil. lia.
    + apply share_larger_iff.
  - apply count_larger_shares. lia.
  - apply concat_head_shares. lia.
Qed.

Lemma general_path_even_distribution_example :
  (auto_detected_college_col Examples.heads1 = ""
   ∨ auto_detected_college_col Examples.people1 = "")
  ∧ 1 ≤ length (json_data Examples.heads1)
  ∧ partition Examples.heads1 Examples.people1
    = Grouped
        [HeadMember (Examples.plain "A") (Examples.plain "p1");
         HeadMember (Examples.plain "A") (Examples.plain "p2");
         HeadMember (Examples.plain "A") (Examples.plain "p3");
         HeadMember (Examples.plain "B") (Examples.plain "p4");
         HeadMember (Examples.plain "B") (Examples.plain "p5")].
Proof.
  assert (H1 : auto_detected_college_col Examples.heads1 = ""
               ∨ auto_detected_college_col Examples.people1 = "")
    by (left; reflexivity).
  assert (H2 : 1 ≤ length (json_data Examples.heads1)) by (simpl; lia).
  split; [exact H1|]. split; [exact H2|].
  exact (proj1 (general_path_even_distribution
                  Examples.heads1 Examples.people1 H1 H2)).
Defined.

(** C4.  With no heads the handler ends with an error message and no row:
    the button handler refuses an empty heads table, and the general path
    stops on [num_heads == 0]. *)
Theorem no_heads_no_rows (heads people : Table) :
  json_data heads = [] →
  (∃ e, process heads people = Failed e)
  ∧ rows_of (process heads people) = []
  ∧ general_grouping (json_data heads) (json_data people)
    = Failed NoTeamHeads.
Proof.
  intros Hnil. unfold process, general_grouping. rewrite Hnil. simpl.
  case_decide; split_and!; eauto.
Qed.

Lemma no_heads_no_rows_example :
  json_data Examples.heads2 = []
  ∧ process Examples.heads2 Examples.people2 = Failed HeadsNotLoaded
  ∧ rows_of (process Examples.heads2 Examples.people2) = [].
Proof.
  assert (H : json_data Examples.heads2 = []) by reflexivity.
  destruct (no_heads_no_rows Examples.heads2 Examples.people2 H)
    as (_ & Hrows & _).
  split; [exact H|]. split; [reflexivity|exact Hrows].
Defined.

Lemma head_share_fmap (g : Dict → Dict) H people i :
  head_share H (g <$> people) i = g <$> head_share H people i.
Proof.
  unfold head_share. by rewrite length_fmap, fmap_take, fmap_drop.
Qed.

Lemma head_block_fmap (g g' : Dict → Dict) status head members :
  head_block status (g head) (g' <$> members)
  = map_records g g' <$> head_block status head members.
Proof.
  destruct members as [|m members]; [done|].
  unfold head_block. csimpl. f_equal.
  rewrite <- !list_fmap_compose. by apply list_fmap_ext.
Qed.

Lemma fmap_concat {A B} (f : A → B) (ls : list (list A)) :
  f <$> concat ls = concat ((λ l : list A, f <$> l) <$> ls).
Proof.
  induction ls as [|l ls IH]; [done|]. csimpl. by rewrite fmap_app, IH.
Qed.

Lemma even_distribution_fmap (g g' : Dict → Dict) status heads people :
  even_distribution status (g <$> heads) (g' <$> people)
  = map_records g g' <$> even_distribution status heads people.
Proof.
  unfold even_distribution.
  rewrite fmap_concat, fmap_imap, imap_fmap, length_fmap. f_equal.
  apply imap_ext. intros i h _. unfold compose.
  by rewrite head_share_fmap, head_block_fmap.
Qed.

Lemma general_grouping_fmap (g g' : Dict → Dict) heads people :
  general_grouping (g <$> heads) (g' <$> people)
  = map_outcome g g' (general_grouping heads people).
Proof.
  destruct heads as [|h heads]; [done|].
  rewrite (general_grouping_even (g <$> h :: heads))
    by (rewrite length_fmap; simpl; lia).
  rewrite (general_grouping_even (h :: heads)) by (simpl; lia).
  simpl. f_equal. apply (even_distribution_fmap g g' _ (h :: heads)).
Qed.

Lemma general_grouping_uniform (heads people : list Dict) :
  general_grouping heads people = uniform_distribution heads people.
Proof.
  unfold uniform_distribution.
  destruct (decide (length heads = 0)) as [E|E].
  - by destruct heads.
  - apply general_grouping_even. lia.
Qed.

(** C5.  When either table has no college column, the grouping block gives
    what the uniform distribution of the specification gives on the two
    full tables: the error when there is no head, otherwise each head in
    order with its contiguous share of the people.  The result does not
    depend on what the records hold: for any two tables of which one has no
    college column and whose records are those of [heads] and [people]
    rewritten in any way (other college values, other fields, other primary
    columns), the rows are the same rows with the rewritten records. *)
Theorem grouping_fallback (heads people : Table) :
  auto_detected_college_col heads = ""
  ∨ auto_detected_college_col people = "" →
  partition heads people
  = uniform_distribution (json_data heads) (json_data people)
  ∧ ∀ (g g' : Dict → Dict) (heads' people' : Table),
      json_data heads' = g <$> json_data heads →
      json_data people' = g' <$> json_data people →
      auto_detected_college_col heads' = ""
      ∨ auto_detected_college_col people' = "" →
      partition heads' people'
      = map_outcome g g'
          (uniform_distribution (json_data heads) (json_data people)).
Proof.
  intros Hno. split.
  - rewrite partition_general by done. apply general_grouping_uniform.
  - intros g g' heads' people' Eh Ep Hno'.
    rewrite partition_general, Eh, Ep by done.
    rewrite general_grouping_fmap. f_equal. apply general_grouping_uniform.
Qed.

Lemma grouping_fallback_example :
  (auto_detected_college_col Examples.heads3 = "" ∨ "" = "")
  ∧ partition Examples.heads3
      (mkTable (json_data Examples.people3) "Name" "")
    = Grouped [HeadMember Examples.hA Examples.p1;
               HeadMember Examples.hA Examples.p2;
               HeadMember Examples.hB Examples.p3]
  ∧ partition (mkTable [Examples.gA; Examples.gB] "Room" "")
      Examples.people3
    = Grouped [HeadMember Examples.gA Examples.p1;
               HeadMember Examples.gA Examples.p2;
               HeadMember Examples.gB Examples.p3].
Proof.
  assert (H : auto_detected_college_col Examples.heads3 = "" ∨ "" = "")
    by (right; reflexivity).
  split; [exact H|]. split.
  - exact (proj1 (grouping_fallback Examples.heads3
                    (mkTable (json_data Examples.people3) "Name" "") H)).
  - exact (proj2 (grouping_fallback Examples.heads3
                    (mkTable (json_data Examples.people3) "Name" "") H)
             (λ head, if decide (head = Examples.hA) then Examples.gA
                      else Examples.gB)
             id
             (mkTable [Examples.gA; Examples.gB] "Room" "")
             Examples.people3 eq_refl eq_refl (or_introl eq_refl)).
Defined.

(** C6.  On the general path with at least one head, the heads loop ends
    with [people_index = num_people], the leftover loop then appends
    nothing, and no row without a head is produced. *)
Theorem general_leftover_unreachable (heads people : Table) :
  auto_detected_college_col heads = ""
  ∨ auto_detected_college_col people = "" →
  1 ≤ length (json_data heads) →
  (general_heads_loop (json_data people) (json_data heads)
     (length (json_data people) / length (json_data heads))
     (length (json_data people) `mod` length (json_data heads)) 0 []).1
  = length (json_data people)
  ∧ (∀ results,
       general_leftover (json_data people) (length (json_data people)) results
       = results)
  ∧ ∃ rows, partition heads people = Grouped rows
            ∧ ∀ person status, MemberOnly person status ∉ rows.
Proof.
  intros Hno HH. split_and!.
  - rewrite general_heads_loop_even by lia. done.
  - intros results. unfold general_leftover. by rewrite Nat.sub_diag.
  - eexists. split.
    + rewrite partition_general by done. apply general_grouping_even. lia.
    + intros person status Hin.
      pose proof (even_distribution_rows
                    (λ a, assoc_head a ≠ None) "No members assigned"
                    (json_data heads) (json_data people)) as Hrows.
      rewrite Forall_forall in Hrows.
      by apply (Hrows ltac:(done) ltac:(done) _ Hin).
Qed.

Lemma general_leftover_unreachable_example :
  (auto_detected_college_col Examples.heads1 = ""
   ∨ auto_detected_college_col Examples.people1 = "")
  ∧ 1 ≤ length (json_data Examples.heads1)
  ∧ ∀ results,
      general_leftover (json_data Examples.people1) 5 results = results.
Proof.
  assert (H1 : auto_detected_college_col Examples.heads1 = ""
               ∨ auto_detected_college_col Examples.people1 = "")
    by (left; reflexivity).
  assert (H2 : 1 ≤ length (json_data Examples.heads1)) by (simpl; lia).
  split; [exact H1|]. split; [exact H2|].
  exact (proj1 (proj2 (general_leftover_unreachable
                         Examples.heads1 Examples.people1 H1 H2))).
Defined.

(** ** The layout of the sets: C9 *)

Section any_set_properties.
Context (impl : PySet).

#[local] Abbreviation same_set' := (same_set impl).
#[local] Abbreviation same_state' := (same_state impl).

Lemma same_set_new : same_set' (set_new impl) ∅.
Proof.
  intros x. rewrite set_contains_new. symmetry.
  by apply bool_decide_eq_false.
Qed.

Lemma same_set_add i ids X :
  same_set' ids X → same_set' (set_add impl i ids) ({[i]} ∪ X).
Proof.
  intros H x. rewrite set_contains_add, H, <- bool_decide_or.
  apply bool_decide_ext. set_solver.
Qed.

Lemma same_set_not_in identifier ids X :
  same_set' ids X →
  not_in_on impl identifier ids ↔ not_in identifier X.
Proof.
  intros H. destruct identifier as [i|]; simpl; [|done].
  rewrite H, negb_True. by rewrite bool_decide_spec.
Qed.

Lemma same_state_initial : same_state' (initial_state_on impl) initial_state.
Proof. split_and!; [done|apply same_set_new..]. Qed.

Lemma same_state_append_row a st' st :
  same_state' st' st →
  same_state' (append_row_on impl a st') (append_row a st).
Proof. intros (R & A & P). split_and!; simpl; [by rewrite R|done..]. Qed.

Lemma same_state_add_assigned i st' st :
  same_state' st' st →
  same_state' (add_assigned_on impl i st') (add_assigned i st).
Proof.
  intros (R & A & P). split_and!; simpl; [done| |done].
  by apply same_set_add.
Qed.

Lemma same_state_add_processed head_id st' st :
  same_state' st' st →
  same_state' (add_processed_on impl head_id st') (add_processed head_id st).
Proof.
  intros (R & A & P). destruct head_id as [i|]; [|done].
  split_and!; simpl; [done..|]. by apply same_set_add.
Qed.

Lemma foldl_same_state {A} (f' : StateOn impl → A → StateOn impl)
    (f : State → A → State) (l : list A) st' st :
  (∀ st' st x, same_state' st' st → same_state' (f' st' x) (f st x)) →
  same_state' st' st →
  same_state' (foldl f' st' l) (foldl f st l).
Proof.
  intros Hf. revert st' st.
  induction l as [|x l IH]; intros st' st Hst; [done|].
  simpl. by apply IH, Hf.
Qed.

Section loops.
Context (hprimary pprimary : string).

Lemma college_members_loop_on_spec people_in_college head count index
    st' st :
  same_state' st' st →
  (college_members_loop_on impl pprimary people_in_college head count index
     st').1
  = (college_members_loop pprimary people_in_college head count index st).1
  ∧ same_state'
      (college_members_loop_on impl pprimary people_in_college head count
         index st').2
      (college_members_loop pprimary people_in_college head count index st).2.
Proof.
  revert index st' st.
  induction count as [|count IH]; intros index st' st Hst; [done|].
  cbn [college_members_loop_on college_members_loop].
  destruct (decide (index < length people_in_college)); [|done].
  apply IH.
  destruct (get_identifier (people_in_college !!! index) pprimary) as [i|];
    [|done].
  pose proof Hst as (_ & A & _). rewrite (A i).
  destruct (decide (i ∉ assigned_people_identifiers st)) as [Hi|Hi].
  - rewrite bool_decide_eq_false_2 by done. simpl.
    by apply same_state_add_assigned, same_state_append_row.
  - rewrite bool_decide_eq_true_2 by (by apply dec_stable). done.
Qed.

Lemma college_heads_loop_on_spec college_name people_in_college heads
    base_per_head remainder index st' st :
  same_state' st' st →
  (college_heads_loop_on impl hprimary pprimary college_name
     people_in_college heads base_per_head remainder index st').1
  = (college_heads_loop hprimary pprimary college_name people_in_college
       heads base_per_head remainder index st).1
  ∧ same_state'
      (college_heads_loop_on impl hprimary pprimary college_name
         people_in_college heads base_per_head remainder index st').2
      (college_heads_loop hprimary pprimary college_name people_in_college
         heads base_per_head remainder index st).2.
Proof.
  revert remainder index st' st.
  induction heads as [|head heads IH]; intros remainder index st' st Hst;
    [done|].
  cbn [college_heads_loop_on college_heads_loop].
  set (count := if decide (0 < remainder) then base_per_head + 1
                else base_per_head).
  set (remainder' := if decide (0 < remainder) then remainder - 1
                     else remainder).
  assert (Hst1 : same_state'
                   (add_processed_on impl (get_identifier head hprimary) st')
                   (add_processed (get_identifier head hprimary) st))
    by by apply same_state_add_processed.
  destruct (decide (count = 0)).
  - by apply IH, same_state_append_row.
  - destruct (college_members_loop_on_spec people_in_college head count
                index _ _ Hst1) as [Hi Hs].
    destruct (college_members_loop_on impl pprimary people_in_college head
                count index _) as [i1' st1'].
    destruct (college_members_loop pprimary people_in_college head count
                index _) as [i1 st1].
    simpl in Hi, Hs. subst i1'. by apply IH.
Qed.

Lemma college_without_people_on_spec college_name heads st' st :
  same_state' st' st →
  same_state'
    (college_without_people_on impl hprimary college_name heads st')
    (college_without_people hprimary college_name heads st).
Proof.
  intros Hst. apply foldl_same_state; [|done].
  intros st1' st1 head H1.
  by apply same_state_append_row, same_state_add_processed.
Qed.

Lemma college_step_on_spec people_by_college st' st entry :
  same_state' st' st →
  same_state' (college_step_on impl hprimary pprimary people_by_college st'
                 entry)
              (college_step hprimary pprimary people_by_college st entry).
Proof.
  intros Hst. destruct entry as [college_name heads_in_college].
  unfold college_step_on, college_step.
  destruct (decide (heads_in_college ≠ []
                    ∧ bucket_get college_name people_by_college ≠ [])).
  - by apply college_heads_loop_on_spec.
  - destruct (decide (heads_in_college ≠ [])); [|done].
    by apply college_without_people_on_spec.
Qed.

Lemma colleges_loop_on_spec heads_data people_data hcollege pcollege st' st :
  same_state' st' st →
  same_state'
    (colleges_loop_on impl heads_data people_data hprimary pprimary
       hcollege pcollege st')
    (colleges_loop heads_data people_data hprimary pprimary hcollege
       pcollege st).
Proof.
  intros Hst. apply foldl_same_state; [|done].
  intros st1' st1 entry H1. by apply college_step_on_spec.
Qed.

Lemma unprocessed_heads_loop_on_spec heads_data st' st :
  same_state' st' st →
  same_state' (unprocessed_heads_loop_on impl heads_data hprimary st')
              (unprocessed_heads_loop heads_data hprimary st).
Proof.
  intros Hst. apply foldl_same_state; [|done].
  intros st1' st1 head H1.
  destruct (get_identifier head hprimary) as [i|]; [|done].
  pose proof H1 as (_ & _ & P). rewrite (P i).
  destruct (decide (i ∉ processed_heads_identifiers st1)) as [Hi|Hi].
  - rewrite bool_decide_eq_false_2 by done. simpl.
    by apply same_state_append_row.
  - rewrite bool_decide_eq_true_2 by (by apply dec_stable). done.
Qed.

Lemma unassigned_people_on_spec people_data st' st :
  same_state' st' st →
  unassigned_people_on impl people_data pprimary st'
  = unassigned_people people_data pprimary st.
Proof.
  intros (_ & A & _). apply list_filter_iff. intros person.
  by apply same_set_not_in.
Qed.

Lemma available_heads_on_spec heads_data st' st :
  same_state' st' st →
  available_heads_on impl heads_data hprimary st'
  = available_heads heads_data hprimary st.
Proof.
  intros (_ & _ & P). unfold available_heads_on, available_heads.
  rewrite (list_filter_iff _
             (λ head, not_in (get_identifier head hprimary)
                             (processed_heads_identifiers st))); [done|].
  intros head. by apply same_set_not_in.
Qed.

Lemma general_assignment_on_spec heads_data people_data st' st :
  same_state' st' st →
  general_assignment_on impl heads_data people_data hprimary pprimary st'
  = general_assignment heads_data people_data hprimary pprimary st.
Proof.
  intros Hst. unfold general_assignment_on, general_assignment.
  rewrite (unassigned_people_on_spec _ _ _ Hst),
    (available_heads_on_spec _ _ _ Hst).
  by destruct Hst as (-> & _ & _).
Qed.
End loops.

Lemma college_grouping_on_spec heads_data people_data hprimary pprimary
    hcollege pcollege :
  college_grouping_on impl heads_data people_data hprimary pprimary
    hcollege pcollege
  = college_grouping heads_data people_data hprimary pprimary
      hcollege pcollege.
Proof.
  unfold college_grouping_on, college_grouping. f_equal.
  apply general_assignment_on_spec, unprocessed_heads_loop_on_spec,
    colleges_loop_on_spec, same_state_initial.
Qed.

Lemma partition_on_spec heads people :
  partition_on impl heads people = partition heads people.
Proof.
  unfold partition_on, partition. case_decide; [|done].
  apply college_grouping_on_spec.
Qed.

Lemma process_on_spec heads people :
  process_on impl heads people = process heads people.
Proof.
  unfold process_on, process. by rewrite partition_on_spec.
Qed.
End any_set_properties.

(** Two hashes, two layouts: after the same two [add]s the elements sit in
    different orders. *)
Lemma hashed_layouts_differ :
  set_add (hashed_set (λ _, 0)) "b"
    (set_add (hashed_set (λ _, 0)) "a" (set_new (hashed_set (λ _, 0))))
  = ["b"; "a"]
  ∧ set_add (hashed_set (λ _, 1)) "b"
      (set_add (hashed_set (λ _, 1)) "a" (set_new (hashed_set (λ _, 1))))
    = ["a"; "b"].
Proof. split; reflexivity. Qed.

(** C9.  The grouping block and the handler give the same outcome in every
    run on the same two tables (same records, same field orders, same
    primary and college columns): the same rows, with the same contents, in
    the same order.  The only thing that changes between two runs is the
    layout of the two sets of identifiers, that is their implementation
    [impl]: the hashes of the strings and the order in which a set would
    hand out its elements.  The code reads the sets with [in] only, so for
    any two implementations the outcomes are equal; they are also the
    outcome of [partition] and [process], where the sets are finite sets. *)
Theorem process_deterministic (impl impl' : PySet) (heads people : Table) :
  partition_on impl heads people = partition_on impl' heads people
  ∧ process_on impl heads people = process_on impl' heads people
  ∧ rows_of (process_on impl heads people)
    = rows_of (process_on impl' heads people)
  ∧ partition_on impl heads people = partition heads people
  ∧ process_on impl heads people = process heads people.
Proof.
  rewrite !partition_on_spec, !process_on_spec. done.
Qed.

Lemma process_deterministic_example :
  process_on (hashed_set (λ _, 0)) Examples.heads3 Examples.people3
  = process_on (hashed_set String.length) Examples.heads3 Examples.people3.
Proof.
  exact (proj1 (proj2 (process_deterministic
                         (hashed_set (λ _, 0)) (hashed_set String.length)
                         Examples.heads3 Examples.people3))).
Defined.

(** ** Identifiers *)

Lemma same_identifier primary data x y i :
  NoDup (identifiers primary data) → x ∈ data → y ∈ data →
  get_identifier x primary = Some i → get_identifier y primary = Some i →
  x = y.
Proof.
  intros Hnd Hx Hy Ex Ey. induction data as [|z data IH].
  { by apply elem_of_nil in Hx. }
  assert (Hin : ∀ w, w ∈ data → get_identifier w primary = Some i →
                     i ∈ identifiers primary data).
  { intros w Hw Ew. apply list_elem_of_omap. by exists w. }
  destruct (get_identifier z primary) as [j|] eqn:Ez.
  - rewrite (identifiers_cons_Some _ _ _ j) in Hnd by done.
    apply NoDup_cons in Hnd as [Hj Hnd].
    apply elem_of_cons in Hx as [->|Hx], Hy as [->|Hy]; try done.
    + simplify_eq. destruct Hj. by eapply Hin.
    + simplify_eq. destruct Hj. by eapply Hin.
    + by apply IH.
  - rewrite identifiers_cons_None in Hnd by done.
    apply elem_of_cons in Hx as [->|Hx], Hy as [->|Hy]; try congruence.
    by apply IH.
Qed.

Lemma NoDup_by_identifiers primary data :
  (∀ x, x ∈ data → is_Some (get_identifier x primary)) →
  NoDup (identifiers primary data) → NoDup data.
Proof.
  induction data as [|z data IH]; intros Hall Hnd; [constructor|].
  destruct (Hall z ltac:(left)) as [j Ez].
  rewrite (identifiers_cons_Some _ _ _ j) in Hnd by done.
  apply NoDup_cons in Hnd as [Hj Hnd]. apply NoDup_cons. split.
  - intros Hz. apply Hj. apply list_elem_of_omap. by exists z.
  - apply IH; [|done]. intros x Hx. apply Hall. by right.
Qed.

Lemma identifiers_NoDup_inj primary data :
  NoDup data →
  (∀ x y i, x ∈ data → y ∈ data →
     get_identifier x primary = Some i → get_identifier y primary = Some i →
     x = y) →
  NoDup (identifiers primary data).
Proof.
  induction data as [|z data IH]; intros Hnd Hinj; [constructor|].
  apply NoDup_cons in Hnd as [Hz Hnd].
  assert (IH' : NoDup (identifiers primary data)).
  { apply IH; [done|]. intros x y i Hx Hy. apply Hinj; by right. }
  destruct (get_identifier z primary) as [j|] eqn:Ez.
  - rewrite (identifiers_cons_Some _ _ _ j) by done. apply NoDup_cons.
    split; [|done]. intros (w & Hw & Ew)%list_elem_of_omap.
    apply Hz. rewrite (Hinj z w j); try done; [left|by right].
  - by rewrite identifiers_cons_None.
Qed.

Lemma identifiers_sublist primary data1 data2 :
  data1 `sublist_of` data2 →
  identifiers primary data1 `sublist_of` identifiers primary data2.
Proof.
  induction 1 as [|x l1 l2 _ IH|x l1 l2 _ IH]; [constructor| |].
  - destruct (get_identifier x primary) as [i|] eqn:E.
    + rewrite !(identifiers_cons_Some _ _ _ i) by done. by constructor.
    + by rewrite !identifiers_cons_None.
  - destruct (get_identifier x primary) as [i|] eqn:E.
    + rewrite (identifiers_cons_Some _ _ _ i) by done. by constructor.
    + by rewrite identifiers_cons_None.
Qed.

Section fresh_properties.
Context (pprimary : string).

Lemma fresh_members_identifiers assigned slice :
  NoDup (identifiers pprimary (fresh_members pprimary assigned slice))
  ∧ (∀ i, i ∈ identifiers pprimary (fresh_members pprimary assigned slice) →
       i ∉ assigned)
  ∧ (∀ m, m ∈ fresh_members pprimary assigned slice →
       is_Some (get_identifier m pprimary)).
Proof.
  revert assigned. induction slice as [|x slice IH]; intros assigned.
  - simpl. split_and!; [constructor| |]; by intros ? ?%elem_of_nil.
  - cbn [fresh_members].
    destruct (get_identifier x pprimary) as [j|] eqn:Ex; [|apply IH].
    case_decide as Hj; [|apply IH].
    destruct (IH ({[j]} ∪ assigned)) as (Hnd & Hout & Hsome).
    rewrite (identifiers_cons_Some _ _ _ j) by done. split_and!.
    + apply NoDup_cons. split; [|done]. intros Hin%Hout. set_solver.
    + intros i [->|Hi%Hout]%elem_of_cons; [done|set_solver].
    + intros m [->|Hm]%elem_of_cons; [by eexists|by apply Hsome].
Qed.

Lemma fresh_members_all assigned slice :
  (∀ x, x ∈ slice →
     ∃ i, get_identifier x pprimary = Some i ∧ i ∉ assigned) →
  NoDup (identifiers pprimary slice) →
  fresh_members pprimary assigned slice = slice.
Proof.
  revert assigned. induction slice as [|x slice IH]; intros assigned Hall Hnd;
    [done|].
  destruct (Hall x ltac:(left)) as (j & Ex & Hj).
  cbn [fresh_members]. rewrite Ex, decide_True by done.
  rewrite (identifiers_cons_Some _ _ _ j) in Hnd by done.
  apply NoDup_cons in Hnd as [Hjn Hnd].
  f_equal. apply IH; [|done].
  intros y Hy. destruct (Hall y ltac:(by right)) as (i & Ey & Hi).
  exists i. split; [done|].
  intros [->%elem_of_singleton|?]%elem_of_union; [|done].
  apply Hjn. apply list_elem_of_omap. by exists y.
Qed.
End fresh_properties.

(** ** The college path as a whole *)

Section college_path.
Context (heads_data people_data : list Dict).
Context (hprimary pprimary hcollege pcollege : string).

#[local] Abbreviation heads_by_college := (group_by_college hcollege heads_data).
#[local] Abbreviation people_by_college := (group_by_college pcollege people_data).
#[local] Abbreviation walked_heads := (concat heads_by_college.*2).
#[local] Abbreviation walked_people :=
  (concat ((λ entry : string * list Dict,
              bucket_get entry.1 people_by_college) <$> heads_by_college)).
#[local] Abbreviation st2 :=
  (colleges_loop heads_data people_data hprimary pprimary hcollege pcollege
     initial_state).
#[local] Abbreviation st3 := (unprocessed_heads_loop heads_data hprimary st2).

Lemma colleges_loop_walks :
  walks hprimary pprimary walked_heads walked_people initial_state st2.
Proof.
  unfold colleges_loop. apply colleges_walk, group_by_college_nonempty.
Qed.

Lemma walked_heads_elem h :
  h ∈ walked_heads
  ↔ h ∈ heads_data ∧ is_Some (normalized_college hcollege h).
Proof.
  split.
  - intros (items & Hitems & Hh)%elem_of_concat.
    apply list_elem_of_fmap in Hitems as ([k items'] & -> & Hentry).
    apply group_by_college_entry in Hentry as [-> _]. simpl in Hh.
    apply list_elem_of_filter in Hh as [Hk Hh]. split; [done|by eexists].
  - intros [Hh [k Hk]].
    destruct (group_by_college_bucket hcollege heads_data h k Hh Hk)
      as (items & Hentry & Hitem).
    apply elem_of_concat. exists items. split; [|done].
    apply list_elem_of_fmap. by exists (k, items).
Qed.

Lemma walked_people_elem m : m ∈ walked_people → m ∈ people_data.
Proof.
  intros (items & Hitems & Hm)%elem_of_concat.
  apply list_elem_of_fmap in Hitems as ([k items'] & -> & _).
  simpl in Hm. rewrite bucket_get_group in Hm.
  by apply list_elem_of_filter in Hm as [_ Hm].
Qed.

Lemma concat_buckets_NoDup (keys : list string) :
  NoDup keys → NoDup people_data →
  NoDup (concat ((λ k, filter (λ item, normalized_college pcollege item
                                       = Some k) people_data) <$> keys)).
Proof.
  intros Hkeys Hnd. induction Hkeys as [|k keys Hk _ IH]; [constructor|].
  csimpl. apply NoDup_app. split_and!; [by apply NoDup_filter| |done].
  intros x [Hx _]%list_elem_of_filter (items & Hitems & Hx')%elem_of_concat.
  apply list_elem_of_fmap in Hitems as (k' & -> & Hk').
  apply list_elem_of_filter in Hx' as [Hx' _]. congruence.
Qed.

Lemma walked_people_NoDup : NoDup people_data → NoDup walked_people.
Proof.
  intros Hnd.
  assert (E : (λ entry : string * list Dict,
                 bucket_get entry.1 people_by_college) <$> heads_by_college
              = (λ k, filter (λ item, normalized_college pcollege item
                                      = Some k) people_data)
                <$> heads_by_college.*1).
  { rewrite <- list_fmap_compose. apply list_fmap_ext.
    intros _ [k items] _. simpl. apply bucket_get_group. }
  rewrite E. apply concat_buckets_NoDup; [|done].
  apply group_by_college_NoDup.
Qed.

(** The people of the rows: those let through by the colleges loop, then
    the unassigned people. *)
Lemma college_grouping_members :
  members_of (general_assignment heads_data people_data hprimary pprimary st3)
  = fresh_members pprimary ∅ walked_people
    ++ unassigned_people people_data pprimary st2
  ∧ assigned_people_identifiers st2
    = list_to_set
        (identifiers pprimary (fresh_members pprimary ∅ walked_people)).
Proof.
  destruct colleges_loop_walks as (M & A & _).
  destruct (unprocessed_heads_fold hprimary heads_data st2)
    as (M3 & A3 & _).
  fold (unprocessed_heads_loop heads_data hprimary st2) in M3, A3.
  simpl in M, A. rewrite (right_id_L ∅ (∪)) in A. split; [|done].
  rewrite general_assignment_members, M3, M.
  unfold unassigned_people. by rewrite A3.
Qed.

(** Rows only pair heads of the heads table with people of the people
    table, and every row has a head. *)
Lemma college_grouping_rows (Q : Association → Prop) :
  heads_data ≠ [] →
  (∀ h m, h ∈ heads_data → m ∈ people_data → Q (HeadMember h m)) →
  (∀ h s, h ∈ heads_data → Q (HeadOnly h s)) →
  Forall Q (general_assignment heads_data people_data hprimary pprimary st3).
Proof.
  intros Hne HM HO.
  destruct colleges_loop_walks as (_ & _ & _ & Q2 & _).
  destruct (unprocessed_heads_fold hprimary heads_data st2)
    as (_ & _ & _ & _ & Q3 & _).
  fold (unprocessed_heads_loop heads_data hprimary st2) in Q3.
  rewrite general_assignment_round_robin by done.
  apply Forall_app. split.
  - apply Q3; [done|]. apply Q2; [| |constructor].
    + intros h m [Hh _]%walked_heads_elem Hm%walked_people_elem. by apply HM.
    + intros h s [Hh _]%walked_heads_elem. by apply HO.
  - apply Forall_forall. intros a Ha. unfold round_robin in Ha.
    apply elem_of_lookup_imap in Ha as (i & p & -> & Hp).
    apply HM.
    + apply (available_heads_subseteq heads_data hprimary st3).
      apply list_elem_of_lookup_total_2, Nat.mod_upper_bound.
      pose proof (available_heads_nonempty heads_data hprimary st3 Hne).
      by destruct (available_heads heads_data hprimary st3).
    + apply list_elem_of_lookup_2 in Hp. unfold unassigned_people in Hp.
      by apply list_elem_of_filter in Hp as [_ Hp].
Qed.
Lemma college_grouping_permutation :
  NoDup (identifiers pprimary people_data) →
  members_of (general_assignment heads_data people_data hprimary pprimary st3)
  ≡ₚ people_data.
Proof.
  intros Hnd. destruct college_grouping_members as [-> HA].
  set (F := fresh_members pprimary ∅ walked_people) in *.
  set (A := assigned_people_identifiers st2) in *.
  destruct (fresh_members_identifiers pprimary ∅ walked_people)
    as (HFnd & _ & HFsome). fold F in HFnd, HFsome.
  set (G := filter (λ person,
                      ¬ not_in (get_identifier person pprimary) A)
                   people_data).
  assert (HFG : F ≡ₚ G).
  { apply NoDup_Permutation.
    - by apply (NoDup_by_identifiers pprimary).
    - apply (NoDup_by_identifiers pprimary).
      + intros x [Hx _]%list_elem_of_filter.
        destruct (get_identifier x pprimary); [by eexists|].
        by destruct Hx.
      + eapply sublist_NoDup; [exact Hnd|].
        apply identifiers_sublist, sublist_filter.
    - intros x. split.
      + intros Hx. destruct (HFsome x Hx) as [i Ei].
        apply list_elem_of_filter. split.
        * rewrite Ei. simpl. intros Hi. apply Hi. rewrite HA.
          apply elem_of_list_to_set, list_elem_of_omap. by exists x.
        * by apply walked_people_elem, (fresh_members_elem pprimary ∅).
      + intros [Hx Hin]%list_elem_of_filter.
        destruct (get_identifier x pprimary) as [i|] eqn:Ei;
          [|by destruct Hx].
        simpl in Hx. apply dec_stable in Hx. rewrite HA in Hx.
        apply elem_of_list_to_set, list_elem_of_omap in Hx
          as (y & Hy & Ey).
        rewrite (same_identifier pprimary people_data x y i); try done.
        by apply walked_people_elem, (fresh_members_elem pprimary ∅). }
  rewrite HFG. unfold unassigned_people. fold A. unfold G.
  rewrite (comm (++)). apply filter_app_complement.
Qed.

End college_path.

(** ** Projection of a row *)

Lemma append_inj_r prefix k k' : prefix +:+ k = prefix +:+ k' → k = k'.
Proof.
  induction prefix as [|a prefix IH]; simpl; [done|].
  intros E. injection E as E. by apply IH.
Qed.

Lemma dict_set_fresh key value (row : Dict) :
  key ∉ row.*1 → dict_set key value row = row ++ [(key, value)].
Proof.
  induction row as [|[k v] row IH]; csimpl; [done|].
  intros Hk. apply not_elem_of_cons in Hk as [Hne Hk].
  rewrite decide_False by done. by rewrite IH.
Qed.

Lemma prefixed_keys prefix (items : Dict) k :
  k ∈ (prefixed prefix items).*1 → ∃ k', k' ∈ items.*1 ∧ k = prefix +:+ k'.
Proof.
  unfold prefixed. rewrite <- list_fmap_compose.
  intros ([k' v] & -> & Hin)%list_elem_of_fmap. simpl.
  exists k'. split; [|done]. apply list_elem_of_fmap. by exists (k', v).
Qed.

Lemma add_fields_fresh prefix (items row : Dict) :
  is_dict items →
  (∀ k, k ∈ items.*1 → prefix +:+ k ∉ row.*1) →
  add_fields prefix items row = row ++ prefixed prefix items.
Proof.
  unfold is_dict. revert row.
  induction items as [|[k v] items IH]; intros row Hnd Hfresh; csimpl.
  - by rewrite app_nil_r.
  - apply NoDup_cons in Hnd as [Hk Hnd].
    rewrite dict_set_fresh by (apply Hfresh; left).
    rewrite IH; [by rewrite <- app_assoc|done|].
    intros k' Hk'. rewrite fmap_app. csimpl.
    intros [Hin|Hin%list_elem_of_singleton]%elem_of_app.
    + by apply (Hfresh k'); [right|].
    + apply append_inj_r in Hin. subst k'. by apply Hk.
Qed.

Lemma add_fields_empty prefix (items : Dict) :
  is_dict items → add_fields prefix items [] = prefixed prefix items.
Proof.
  intros Hd. rewrite add_fields_fresh; [done|done|].
  intros k _ Hin. by apply elem_of_nil in Hin.
Qed.

Lemma project_HeadMember head member :
  is_dict head → is_dict member →
  project (HeadMember head member)
  = prefixed head_prefix head ++ prefixed member_prefix member.
Proof.
  intros Hh Hm. simpl. rewrite add_fields_empty by done.
  apply add_fields_fresh; [done|].
  intros k _ (k' & _ & E)%prefixed_keys. discriminate E.
Qed.

Lemma project_HeadOnly head status :
  is_dict head →
  project (HeadOnly head status)
  = prefixed head_prefix head ++ [("Group Member - Status", status)].
Proof.
  intros Hh. simpl. rewrite add_fields_empty by done.
  apply dict_set_fresh. intros (k' & _ & E)%prefixed_keys. discriminate E.
Qed.

(** The row without a head opens with its status. *)
Lemma project_MemberOnly member status :
  is_dict member →
  project (MemberOnly member status)
  = ("Team Head - Status", status) :: prefixed member_prefix member.
Proof.
  intros Hm. simpl. rewrite add_fields_fresh; [done|done|].
  intros k _ Hin. csimpl in Hin.
  apply list_elem_of_singleton in Hin. discriminate Hin.
Qed.

(** ** The grouping block as a whole *)

Lemma partition_college heads people :
  auto_detected_college_col people ≠ "" →
  auto_detected_college_col heads ≠ "" →
  partition heads people
  = Grouped
      (general_assignment (json_data heads) (json_data people)
         (primary_column_name heads) (primary_column_name people)
         (state_after_colleges heads people)).
Proof. intros Hp Hh. unfold partition. by rewrite decide_True. Qed.

Lemma partition_cases heads people :
  (auto_detected_college_col heads = ""
   ∨ auto_detected_college_col people = "")
  ∨ (auto_detected_college_col people ≠ ""
     ∧ auto_detected_college_col heads ≠ "").
Proof.
  destruct (decide (auto_detected_college_col heads = "")); [by left; left|].
  destruct (decide (auto_detected_college_col people = ""));
    [by left; right|by right].
Qed.

Lemma general_grouping_Grouped heads_data people_data rows :
  general_grouping heads_data people_data = Grouped rows →
  0 < length heads_data
  ∧ rows = even_distribution "No members assigned" heads_data people_data.
Proof.
  intros E. destruct heads_data as [|h heads_data]; [done|].
  rewrite general_grouping_even in E by (simpl; lia).
  split; [simpl; lia|congruence].
Qed.

Lemma process_rows_from_tables heads people rows :
  process heads people = Grouped rows →
  Forall (from_tables (json_data heads) (json_data people)) rows.
Proof.
  unfold process. case_decide; [done|]. case_decide as Hne; [done|].
  destruct (partition_cases heads people) as [Hno|[Hp Hh]].
  - rewrite partition_general by done.
    intros [_ ->]%general_grouping_Grouped.
    by apply even_distribution_rows.
  - rewrite partition_college by done. intros [= <-].
    by apply college_grouping_rows.
Qed.

Lemma length_filter_has_member rows :
  length (filter has_member rows) = length (members_of rows).
Proof.
  unfold members_of. induction rows as [|a rows IH]; [done|].
  rewrite filter_cons. destruct a; csimpl; by rewrite ?IH.
Qed.

(** ** Conservation of people: C2, C10 *)

Lemma fresh_members_NoDup pprimary assigned slice :
  NoDup (fresh_members pprimary assigned slice).
Proof.
  destruct (fresh_members_identifiers pprimary assigned slice)
    as (Hnd & _ & Hsome).
  by apply (NoDup_by_identifiers pprimary).
Qed.

(** No person is in two rows, whatever the identifiers. *)
Lemma members_submseteq (heads people : Table) (rows : list Association) :
  partition heads people = Grouped rows →
  members_of rows ⊆+ json_data people.
Proof.
  intros Hrows.
  destruct (partition_cases heads people) as [Hno|[Hp Hh]].
  - rewrite partition_general in Hrows by done.
    apply general_grouping_Grouped in Hrows as [HH ->].
    by rewrite even_distribution_members.
  - rewrite partition_college in Hrows by done. injection Hrows as <-.
    unfold state_after_colleges.
    destruct (college_grouping_members (json_data heads) (json_data people)
                (primary_column_name heads) (primary_column_name people)
                (auto_detected_college_col heads)
                (auto_detected_college_col people)) as [-> HA].
    set (pprim := primary_column_name people) in *.
    set (W := concat _) in *.
    set (A := assigned_people_identifiers _) in *.
    etrans; [|apply Permutation_submseteq,
                (filter_app_complement
                   (λ person, not_in (get_identifier person pprim) A)
                   (json_data people))].
    etrans; [apply Permutation_submseteq, Permutation_app_comm|].
    unfold unassigned_people. fold A.
    apply submseteq_app; [done|].
    apply NoDup_submseteq; [apply fresh_members_NoDup|].
    intros x Hx.
    destruct (fresh_members_identifiers pprim ∅ W) as (_ & _ & Hsome).
    destruct (Hsome x Hx) as [i Ei].
    apply list_elem_of_filter. split.
    + rewrite Ei. simpl. intros Hi. apply Hi. rewrite HA.
      apply elem_of_list_to_set, list_elem_of_omap. by exists x.
    + apply (walked_people_elem (json_data heads) (json_data people)
               (auto_detected_college_col heads)
               (auto_detected_college_col people)).
      by apply (fresh_members_elem pprim ∅).
Qed.

(** C2, as stated, fails, in each of its two halves.  On the college path a
    second person with an identifier already assigned is skipped by the
    guard of line 182 and is left out of [unassigned_people] too: the
    people of the rows are not the people of the table, one person is in no
    row.  On the general path no identifier is looked at: two people with
    the same identifier get a row each, two rows with a person for one
    identifier; and two people without identifier get a row each, two rows
    with a person for no identifier. *)
Lemma duplicate_identifier_breaks_conservation :
  (∃ rows,
     partition Examples.heads_dup Examples.people_dup = Grouped rows
     ∧ ¬ (members_of rows ≡ₚ json_data Examples.people_dup))
  ∧ (∃ rows,
       partition (mkTable [Examples.hA] "Name" "") Examples.people_dup
       = Grouped rows
       ∧ length (filter has_member rows)
         ≠ size (list_to_set (identifiers "Name" (members_of rows))
                 : gset string))
  ∧ (∃ rows,
       partition (mkTable [Examples.hA] "Name" "") Examples.people_noid2
       = Grouped rows
       ∧ length (filter has_member rows)
         ≠ size (list_to_set (identifiers "Name" (members_of rows))
                 : gset string)).
Proof.
  split_and!.
  - exists [HeadMember Examples.hA Examples.q1]. split; [reflexivity|].
    intros Hperm. apply Permutation_length in Hperm. discriminate Hperm.
  - exists [HeadMember Examples.hA Examples.q1;
            HeadMember Examples.hA Examples.q2].
    split; [reflexivity|]. vm_compute. discriminate.
  - exists [HeadMember Examples.hA Examples.r1;
            HeadMember Examples.hA Examples.r2].
    split; [reflexivity|]. vm_compute. discriminate.
Qed.

(** C2 (amended).  For all inputs no person record is in two rows: the
    people of the rows, counted with repetitions, are among the people of
    the table.  On the general path, and on the college path when no two
    people carry the same identifier, none is left out either: the people of
    the rows are a permutation of the people table, every person record is
    in exactly one row, and the rows with a person are as many as the
    people.  When every person carries an identifier and no two people carry
    the same one, the rows with a person are as many as the distinct
    identifiers of the people in the rows. *)
Theorem every_person_in_one_row (heads people : Table)
    (rows : list Association) :
  partition heads people = Grouped rows →
  members_of rows ⊆+ json_data people
  ∧ ((auto_detected_college_col heads = ""
      ∨ auto_detected_college_col people = "")
     ∨ NoDup (identifiers (primary_column_name people) (json_data people)) →
     members_of rows ≡ₚ json_data people
     ∧ length (filter has_member rows) = length (json_data people))
  ∧ (identified (primary_column_name people) (json_data people) →
     length (filter has_member rows)
     = size (list_to_set
               (identifiers (primary_column_name people) (members_of rows))
             : gset string)).
Proof.
  intros Hrows.
  assert (Hperm :
    (auto_detected_college_col heads = ""
     ∨ auto_detected_college_col people = "")
    ∨ NoDup (identifiers (primary_column_name people) (json_data people)) →
    members_of rows ≡ₚ json_data people).
  { intros Hcase.
    destruct (partition_cases heads people) as [Hno|[Hp Hh]].
    - rewrite partition_general in Hrows by done.
      apply general_grouping_Grouped in Hrows as [HH ->].
      by rewrite even_distribution_members.
    - destruct Hcase as [[?|?]|Hnd]; [done|done|].
      rewrite partition_college in Hrows by done.
      injection Hrows as <-. by apply college_grouping_permutation. }
  split_and!.
  - by apply (members_submseteq heads).
  - intros Hcase. split; [by apply Hperm|].
    by rewrite length_filter_has_member, Hperm.
  - intros [Hall Hnd]. specialize (Hperm (or_intror Hnd)).
    assert (Hids : identifiers (primary_column_name people) (members_of rows)
                   ≡ₚ identifiers (primary_column_name people)
                        (json_data people))
      by (unfold identifiers; by rewrite Hperm).
    rewrite Hids, size_list_to_set by done.
    rewrite length_filter_has_member, Hperm.
    clear -Hall. induction Hall as [|x data [i Ei] _ IH]; [done|].
    rewrite (identifiers_cons_Some _ _ _ i) by done. simpl. by rewrite IH.
Qed.

Lemma every_person_in_one_row_example :
  members_of
    [HeadMember Examples.hA Examples.p1; HeadMember Examples.hA Examples.p2;
     HeadOnly Examples.hB "No members from y assigned to this head";
     HeadMember Examples.hA Examples.p3]
  ≡ₚ json_data Examples.people3
  ∧ 3 = size ({["p1"; "p2"; "p3"]} : gset string).
Proof.
  assert (Hnd : NoDup (identifiers (primary_column_name Examples.people3)
                         (json_data Examples.people3)))
    by (apply (bool_decide_unpack _); vm_compute; exact I).
  assert (Hall : Forall (λ item, is_Some (get_identifier item "Name"))
                   (json_data Examples.people3))
    by (repeat constructor; eexists; reflexivity).
  pose proof (every_person_in_one_row Examples.heads3 Examples.people3 _
                eq_refl) as (_ & Hperm & Hcount).
  split.
  - exact (proj1 (Hperm (or_intror Hnd))).
  - exact (Hcount (conj Hall Hnd)).
Defined.

(** C10.  Two people of one college carry the same identifier and their
    college has a head: the first gets the only row, the second is walked
    by the members loop but is in no row and is not among the unassigned
    people either. *)
Theorem duplicate_identifier_skipped :
  ∃ heads people first second i college head,
    json_data people = [first; second] ∧ first ≠ second
    ∧ get_identifier first (primary_column_name people) = Some i
    ∧ get_identifier second (primary_column_name people) = Some i
    ∧ normalized_college (auto_detected_college_col people) first
      = Some college
    ∧ normalized_college (auto_detected_college_col people) second
      = Some college
    ∧ bucket_get college
        (group_by_college (auto_detected_college_col heads) (json_data heads))
      = [head]
    ∧ partition heads people = Grouped [HeadMember head first]
    ∧ assign_slice (primary_column_name people) head [first; second]
        (add_processed (get_identifier head (primary_column_name heads))
           initial_state)
      = mkState [HeadMember head first] {[i]} {["A"]}
    ∧ (second ∉ members_of [HeadMember head first])
    ∧ unassigned_people (json_data people) (primary_column_name people)
        (state_after_colleges heads people) = [].
Proof.
  exists Examples.heads_dup, Examples.people_dup, Examples.q1, Examples.q2,
         "p", "x", Examples.hA.
  split_and!; try reflexivity.
  - discriminate.
  - intros Hin. apply list_elem_of_singleton in Hin. discriminate Hin.
Qed.

(** ** No head loss: C3 *)




(** ** General assignment of the unassigned people: C7 *)

Lemma round_robin_lookup candidates unassigned i person :
  unassigned !! i = Some person →
  round_robin candidates unassigned !! i
  = Some (HeadMember (candidates !!! (i `mod` length candidates)) person).
Proof. intros Hi. unfold round_robin. by rewrite list_lookup_imap, Hi. Qed.

(** C7.  On the college path with at least one head, the rows end with the
    general assignment: the candidate heads are the heads whose identifier
    is not in [processed_heads_identifiers], or all heads when there is no
    such head; the unassigned people are the people whose identifier is not
    in [assigned_people_identifiers]; the [i]-th unassigned person gets one
    row, with candidate head [i mod n].  In Example 3 the last row pairs p3
    with head A. *)
Theorem unassigned_people_cycle_heads (heads people : Table) :
  auto_detected_college_col people ≠ "" →
  auto_detected_college_col heads ≠ "" →
  json_data heads ≠ [] →
  partition heads people
  = Grouped
      (grouped_results (state_after_colleges heads people)
       ++ round_robin
            (available_heads (json_data heads) (primary_column_name heads)
               (state_after_colleges heads people))
            (unassigned_people (json_data people) (primary_column_name people)
               (state_after_colleges heads people)))
  ∧ available_heads (json_data heads) (primary_column_name heads)
      (state_after_colleges heads people)
    = (let unhandled :=
         filter (λ head,
                   not_in (get_identifier head (primary_column_name heads))
                     (processed_heads_identifiers
                        (state_after_colleges heads people)))
                (json_data heads) in
       if decide (unhandled = []) then json_data heads else unhandled)
  ∧ unassigned_people (json_data people) (primary_column_name people)
      (state_after_colleges heads people)
    = filter (λ person,
                not_in (get_identifier person (primary_column_name people))
                  (assigned_people_identifiers
                     (colleges_loop (json_data heads) (json_data people)
                        (primary_column_name heads)
                        (primary_column_name people)
                        (auto_detected_college_col heads)
                        (auto_detected_college_col people) initial_state)))
             (json_data people)
  ∧ (∀ candidates unassigned,
       members_of (round_robin candidates unassigned) = unassigned
       ∧ ∀ i person, unassigned !! i = Some person →
           round_robin candidates unassigned !! i
           = Some (HeadMember
                     (candidates !!! (i `mod` length candidates)) person))
  ∧ partition Examples.heads3 Examples.people3
    = Grouped
        [HeadMember Examples.hA Examples.p1;
         HeadMember Examples.hA Examples.p2;
         HeadOnly Examples.hB "No members from y assigned to this head";
         HeadMember Examples.hA Examples.p3].
Proof.
  intros Hp Hh Hne. split_and!.
  - rewrite partition_college by done. f_equal.
    by apply general_assignment_round_robin.
  - done.
  - unfold unassigned_people, state_after_colleges.
    destruct (unprocessed_heads_fold (primary_column_name heads)
                (json_data heads)
                (colleges_loop (json_data heads) (json_data people)
                   (primary_column_name heads) (primary_column_name people)
                   (auto_detected_college_col heads)
                   (auto_detected_college_col people) initial_state))
      as (_ & A & _).
    fold (unprocessed_heads_loop (json_data heads) (primary_column_name heads)
            (colleges_loop (json_data heads) (json_data people)
               (primary_column_name heads) (primary_column_name people)
               (auto_detected_college_col heads)
               (auto_detected_college_col people) initial_state)) in A.
    by rewrite A.
  - intros candidates unassigned. split.
    + apply members_of_imap_HeadMember.
    + intros i person. apply round_robin_lookup.
  - reflexivity.
Qed.

Lemma unassigned_people_cycle_heads_example :
  auto_detected_college_col Examples.people3 ≠ ""
  ∧ auto_detected_college_col Examples.heads3 ≠ ""
  ∧ json_data Examples.heads3 ≠ []
  ∧ partition Examples.heads3 Examples.people3
    = Grouped
        ([HeadMember Examples.hA Examples.p1;
          HeadMember Examples.hA Examples.p2;
          HeadOnly Examples.hB "No members from y assigned to this head"]
         ++ round_robin [Examples.hA; Examples.hB] [Examples.p3]).
Proof.
  assert (H1 : auto_detected_college_col Examples.people3 ≠ "")
    by discriminate.
  assert (H2 : auto_detected_college_col Examples.heads3 ≠ "")
    by discriminate.
  assert (H3 : json_data Examples.heads3 ≠ []) by discriminate.
  split; [exact H1|]. split; [exact H2|]. split; [exact H3|].
  exact (proj1 (unassigned_people_cycle_heads
                  Examples.heads3 Examples.people3 H1 H2 H3)).
Defined.

(** ** Field order of the projected rows: C8 *)

(** C8.  Every row the handler produces has a head.  Its projection lists
    the head's fields under "Team Head - " in the head's order, then either
    the member's fields under "Group Member - " in the member's order, or,
    when the row has no member, the field "Group Member - Status" with the
    row's status. *)
Theorem projected_field_order (heads people : Table)
    (rows : list Association) :
  Forall is_dict (json_data heads) → Forall is_dict (json_data people) →
  process heads people = Grouped rows →
  ∀ a, a ∈ rows →
    match a with
    | HeadMember head member =>
        project a
        = prefixed "Team Head - " head ++ prefixed "Group Member - " member
    | HeadOnly head status =>
        project a
        = prefixed "Team Head - " head ++ [("Group Member - Status", status)]
    | MemberOnly _ _ => False
    end.
Proof.
  intros Hheads Hpeople Hrows a Ha.
  rewrite Forall_forall in Hheads. rewrite Forall_forall in Hpeople.
  apply process_rows_from_tables in Hrows. rewrite Forall_forall in Hrows.
  specialize (Hrows a Ha). destruct a as [head member|head status|]; simpl in Hrows.
  - destruct Hrows as [Hh Hm]. apply project_HeadMember; auto.
  - apply project_HeadOnly; auto.
  - done.
Qed.

Lemma projected_field_order_example :
  Forall is_dict (json_data Examples.heads3)
  ∧ Forall is_dict (json_data Examples.people3)
  ∧ project (HeadOnly Examples.hB "No members from y assigned to this head")
    = [("Team Head - Name", "B"); ("Team Head - College", "Y");
       ("Group Member - Status", "No members from y assigned to this head")].
Proof.
  assert (H1 : Forall is_dict (json_data Examples.heads3))
    by (apply (bool_decide_unpack _); vm_compute; exact I).
  assert (H2 : Forall is_dict (json_data Examples.people3))
    by (apply (bool_decide_unpack _); vm_compute; exact I).
  split; [exact H1|]. split; [exact H2|].
  apply (projected_field_order Examples.heads3 Examples.people3 _ H1 H2
           eq_refl
           (HeadOnly Examples.hB "No members from y assigned to this head")).
  right. right. left.
Defined.

(** * Further properties of the code *)

(** ** The handler after the grouping block *)

Lemma members_of_nonempty rows : members_of rows ≠ [] → rows ≠ [].
Proof. by intros H ->. Qed.

Lemma college_grouping_nonempty heads_data people_data hprimary pprimary
    hcollege pcollege :
  heads_data ≠ [] → people_data ≠ [] →
  general_assignment heads_data people_data hprimary pprimary
    (unprocessed_heads_loop heads_data hprimary
       (colleges_loop heads_data people_data hprimary pprimary hcollege
          pcollege initial_state))
  ≠ [].
Proof.
  intros Hheads Hpeople. apply members_of_nonempty.
  destruct (college_grouping_members heads_data people_data hprimary pprimary
              hcollege pcollege) as [-> HA].
  destruct people_data as [|p0 people_data]; [done|].
  unfold unassigned_people. rewrite filter_cons.
  destruct (decide (not_in (get_identifier p0 pprimary)
                      (assigned_people_identifiers
                         (colleges_loop heads_data (p0 :: people_data)
                            hprimary pprimary hcollege pcollege
                            initial_state)))) as [Hin|Hout].
  - intros E. apply app_eq_nil in E as [_ E]. done.
  - destruct (get_identifier p0 pprimary) as [i|]; [|by destruct Hout].
    simpl in Hout. apply dec_stable in Hout. rewrite HA in Hout.
    apply elem_of_list_to_set in Hout. intros E.
    apply app_eq_nil in E as [E _]. rewrite E in Hout.
    by apply elem_of_nil in Hout.
Qed.

Lemma process_rows_nonempty heads people rows :
  process heads people = Grouped rows → rows ≠ [].
Proof.
  unfold process. case_decide as Hp; [done|]. case_decide as Hh; [done|].
  destruct (partition_cases heads people) as [Hno|[Hpc Hhc]].
  - rewrite partition_general by done.
    intros [_ ->]%general_grouping_Grouped.
    destruct (json_data heads) as [|h data] eqn:E; [done|].
    destruct (even_distribution_served "No members assigned" (h :: data)
                (json_data people) h ltac:(left)) as (a & Ha & _).
    intros E'. rewrite E' in Ha. by apply elem_of_nil in Ha.
  - rewrite partition_college by done. intros [= <-].
    by apply college_grouping_nonempty.
Qed.

Lemma partition_Grouped heads people :
  json_data heads ≠ [] → ∃ rows, partition heads people = Grouped rows.
Proof.
  intros Hh. destruct (partition_cases heads people) as [Hno|[Hpc Hhc]].
  - rewrite partition_general by done. eexists.
    apply general_grouping_even. destruct (json_data heads); [done|simpl; lia].
  - rewrite partition_college by done. by eexists.
Qed.

Lemma process_Failed heads people e :
  process heads people = Failed e →
  (e = PeopleNotLoaded ∧ json_data people = [])
  ∨ (e = HeadsNotLoaded ∧ json_data people ≠ [] ∧ json_data heads = []).
Proof.
  unfold process. case_decide; [left; by simplify_eq|].
  case_decide as Hh; [right; by simplify_eq|].
  destruct (partition_Grouped heads people Hh) as [rows ->]. done.
Qed.

(** X1.  A click on "Process and Group" shows an error exactly when a table
    is empty, the people message taking precedence; it never shows the
    'No team heads found' error of line 253 nor the 'No groups were formed'
    warning of line 301; with both tables loaded it offers a download of at
    least one row. *)
Theorem click_outcomes (heads people : Table) :
  on_process_click heads people ≠ NoGroupsWarning
  ∧ on_process_click heads people ≠ ErrorShown NoTeamHeads
  ∧ (on_process_click heads people = ErrorShown PeopleNotLoaded
     ↔ json_data people = [])
  ∧ (on_process_click heads people = ErrorShown HeadsNotLoaded
     ↔ json_data people ≠ [] ∧ json_data heads = [])
  ∧ ((∃ rows, rows ≠ []
              ∧ process heads people = Grouped rows
              ∧ on_process_click heads people
                = DownloadOffered (project <$> rows))
     ↔ json_data people ≠ [] ∧ json_data heads ≠ []).
Proof.
  pose proof (process_rows_nonempty heads people) as Hrows.
  unfold on_process_click.
  destruct (process heads people) as [e|rows] eqn:E.
  - apply process_Failed in E as [[-> Hp]|(-> & Hp & Hh)];
      (split_and!; [done|done|split|split|split]); try done.
    + by intros [? ?].
    + by intros (? & _ & ? & _).
    + by intros [? ?].
    + by intros (? & _ & ? & _).
    + by intros [? ?].
  - specialize (Hrows rows eq_refl). rewrite decide_False by done.
    assert (Hne : json_data people ≠ [] ∧ json_data heads ≠ []).
    { unfold process in E. case_decide; [done|]. by case_decide. }
    split_and!; try done.
    + split; [done|naive_solver].
    + split; [done|naive_solver].
    + split; [done|]. intros _. by exists rows.
Qed.

(** ** The number of rows of the general grouping *)

Lemma length_head_block status head members :
  length (head_block status head members) = 1 `max` length members.
Proof.
  destruct members as [|m members]; [done|].
  unfold head_block. rewrite length_fmap. simpl. lia.
Qed.

Lemma sum_list_imap_index {A} (g : nat → nat) (l : list A) :
  sum_list (imap (λ i _, g i) l) = sum_list (g <$> seq 0 (length l)).
Proof. by rewrite imap_index_only. Qed.

Lemma sum_list_ext_seq (f g : nat → nat) s n :
  (∀ i, s ≤ i < s + n → f i = g i) →
  sum_list (f <$> seq s n) = sum_list (g <$> seq s n).
Proof.
  revert s. induction n as [|n IH]; intros s Hfg; [done|].
  csimpl. rewrite (Hfg s) by lia. f_equal. apply IH. intros i Hi.
  apply Hfg. lia.
Qed.

Lemma sum_list_length_concat {A} (ls : list (list A)) :
  length (concat ls) = sum_list (length <$> ls).
Proof.
  induction ls as [|l ls IH]; [done|]. csimpl.
  by rewrite length_app, IH.
Qed.

Lemma length_even_distribution status heads people :
  0 < length heads →
  length (even_distribution status heads people)
  = length heads `max` length people.
Proof.
  intros HH. unfold even_distribution.
  rewrite sum_list_length_concat, fmap_imap.
  rewrite (imap_ext _ (λ i _, 1 `max` length
                                (head_share (length heads) people i)))
    by (intros; apply length_head_block).
  rewrite sum_list_imap_index.
  pose proof (Nat.div_mod_eq (length people) (length heads)) as E.
  pose proof (Nat.mod_upper_bound (length people) (length heads)
                ltac:(lia)) as B.
  destruct (decide (length heads ≤ length people)) as [Hle|Hlt].
  - assert (Hbase : 1 ≤ length people / length heads)
      by (apply Nat.div_le_lower_bound; lia).
    rewrite (sum_list_ext_seq _ (λ i, length
                                   (head_share (length heads) people i))).
    + replace ((λ i, length (head_share (length heads) people i))
               <$> seq 0 (length heads))
        with (length <$> (head_share (length heads) people
                            <$> seq 0 (length heads)))
        by (by rewrite <- list_fmap_compose).
      rewrite <- sum_list_length_concat, concat_head_shares by done. lia.
    + intros i Hi. rewrite length_head_share by lia. unfold share. lia.
  - assert (Hbase : length people / length heads = 0)
      by (apply Nat.div_small; lia).
    rewrite (sum_list_ext_seq _ (λ _, 1)).
    + rewrite sum_list_fmap_const, length_seq. lia.
    + intros i Hi. rewrite length_head_share by lia. unfold share.
      rewrite Hbase. case_decide; lia.
Qed.

(** X2.  On the general path with at least one head the sheet has
    [max H P] rows: one per person, and one status row for each head that is
    left without a person. *)
Theorem general_path_row_count (heads people : Table)
    (rows : list Association) :
  auto_detected_college_col heads = ""
  ∨ auto_detected_college_col people = "" →
  partition heads people = Grouped rows →
  length rows = length (json_data heads) `max` length (json_data people)
  ∧ length (filter has_member rows) = length (json_data people)
  ∧ length (filter (λ a, ¬ has_member a) rows)
    = length (json_data heads) - length (json_data people).
Proof.
  intros Hno Hrows. rewrite partition_general in Hrows by done.
  apply general_grouping_Grouped in Hrows as [HH ->].
  pose proof (length_even_distribution "No members assigned"
                (json_data heads) (json_data people) HH) as Hlen.
  assert (Hmem : length (filter has_member
                           (even_distribution "No members assigned"
                              (json_data heads) (json_data people)))
                 = length (json_data people))
    by (by rewrite length_filter_has_member, even_distribution_members).
  split_and!; [done|done|].
  pose proof (filter_app_complement has_member
                (even_distribution "No members assigned"
                   (json_data heads) (json_data people))) as Hperm.
  apply Permutation_length in Hperm. rewrite length_app in Hperm. lia.
Qed.

Lemma general_path_row_count_example :
  (auto_detected_college_col Examples.heads1 = ""
   ∨ auto_detected_college_col Examples.people1 = "")
  ∧ length (even_distribution "No members assigned"
              (json_data Examples.heads1) (json_data Examples.people1))
    = 2 `max` 5.
Proof.
  assert (H : auto_detected_college_col Examples.heads1 = ""
              ∨ auto_detected_college_col Examples.people1 = "")
    by (left; reflexivity).
  split; [exact H|].
  exact (proj1 (general_path_row_count Examples.heads1 Examples.people1 _
                  H eq_refl)).
Defined.

(** ** Bucketing by college *)

Lemma bucket_append_concat college item by_college :
  concat (bucket_append college item by_college).*2
  ≡ₚ concat by_college.*2 ++ [item].
Proof.
  induction by_college as [|[k items] rest IH]; csimpl; [done|].
  case_decide; csimpl.
  - rewrite <- !app_assoc. f_equiv. apply Permutation_app_comm.
  - by rewrite IH, app_assoc.
Qed.

Lemma group_by_college_concat college_column data :
  concat (group_by_college college_column data).*2
  ≡ₚ filter (λ item, is_Some (normalized_college college_column item)) data.
Proof.
  unfold group_by_college.
  induction data as [|item data IH] using rev_ind; [done|].
  rewrite foldl_snoc, filter_app, filter_cons, filter_nil.
  destruct (normalized_college college_column item) as [c|] eqn:E.
  - rewrite bucket_append_concat, IH. by rewrite decide_True by (by eexists).
  - rewrite IH, decide_False by (by intros [? ?]). by rewrite app_nil_r.
Qed.

Lemma group_by_college_keys college_column data k :
  k ∈ (group_by_college college_column data).*1
  ↔ ∃ item, item ∈ data ∧ normalized_college college_column item = Some k.
Proof.
  split.
  - intros ([k' items] & -> & Hentry)%list_elem_of_fmap. simpl.
    apply group_by_college_entry in Hentry as [-> Hne].
    destruct (filter _ data) as [|item rest] eqn:E; [done|].
    assert (Hitem : item ∈ filter (λ item, normalized_college college_column
                                             item = Some k') data)
      by (rewrite E; left).
    apply list_elem_of_filter in Hitem as [? ?]. by exists item.
  - intros (item & Hin & Hk).
    destruct (group_by_college_bucket college_column data item k Hin Hk)
      as (items & Hentry & _).
    apply list_elem_of_fmap. by exists (k, items).
Qed.

(** X3.  The dictionary built by the bucketing loops of lines 130-146 has
    one entry per key that occurs, with distinct keys; the entry of a key
    holds exactly the records with that key, in table order, and is never
    empty; [get] with a key that does not occur gives the empty list; and
    the buckets together hold each keyed record once and no other record. *)
Theorem group_by_college_buckets (college_column : string)
    (data : list Dict) :
  NoDup (group_by_college college_column data).*1
  ∧ (∀ k, k ∈ (group_by_college college_column data).*1
          ↔ ∃ item, item ∈ data
                    ∧ normalized_college college_column item = Some k)
  ∧ (∀ k items, (k, items) ∈ group_by_college college_column data →
       items ≠ []
       ∧ items = filter (λ item, normalized_college college_column item
                                 = Some k) data)
  ∧ (∀ k, bucket_get k (group_by_college college_column data)
          = filter (λ item, normalized_college college_column item = Some k)
                   data)
  ∧ concat (group_by_college college_column data).*2
    ≡ₚ filter (λ item, is_Some (normalized_college college_column item))
              data.
Proof.
  split_and!.
  - apply group_by_college_NoDup.
  - apply group_by_college_keys.
  - intros k items Hentry.
    by apply group_by_college_entry in Hentry as [? ?].
  - intros k. apply bucket_get_group.
  - apply group_by_college_concat.
Qed.

(** ** What the colleges loop pairs *)

Lemma colleges_rows_by_entry hprimary pprimary people_by_college
    (Q : Association → Prop) entries st :
  Forall (λ entry, entry.2 ≠ []) entries →
  (∀ k heads h m, (k, heads) ∈ entries → h ∈ heads →
     m ∈ bucket_get k people_by_college → Q (HeadMember h m)) →
  (∀ k heads h s, (k, heads) ∈ entries → h ∈ heads → Q (HeadOnly h s)) →
  Forall Q (grouped_results st) →
  Forall Q (grouped_results
              (foldl (college_step hprimary pprimary people_by_college) st
                     entries)).
Proof.
  intros Hall. revert st.
  induction Hall as [|[k heads] entries Hne _ IH]; intros st HM HO Hst;
    [done|].
  cbn [foldl]. apply IH.
  - intros k' heads' h m Hentry. apply (HM k' heads'). by right.
  - intros k' heads' h s Hentry. apply (HO k' heads'). by right.
  - destruct (college_step_walks hprimary pprimary people_by_college st k
                heads Hne) as (_ & _ & _ & Hq & _).
    apply Hq; [| |done].
    + intros h m Hh Hm. apply (HM k heads); [left|done|done].
    + intros h s Hh. apply (HO k heads); [left|done].
Qed.

(** X4.  Before the general assignment starts, every row that pairs a head
    with a person pairs two records of the same college: both have a
    normalized college, and it is the same.  The status rows appended so far
    carry a head of the heads table. *)
Theorem college_rows_same_college (heads people : Table) (a : Association) :
  a ∈ grouped_results (state_after_colleges heads people) →
  match a with
  | HeadMember h m =>
      h ∈ json_data heads ∧ m ∈ json_data people
      ∧ ∃ k, normalized_college (auto_detected_college_col heads) h = Some k
             ∧ normalized_college (auto_detected_college_col people) m
               = Some k
  | HeadOnly h _ => h ∈ json_data heads
  | MemberOnly _ _ => False
  end.
Proof.
  revert a. apply Forall_forall. unfold state_after_colleges.
  destruct (unprocessed_heads_fold (primary_column_name heads)
              (json_data heads)
              (colleges_loop (json_data heads) (json_data people)
                 (primary_column_name heads) (primary_column_name people)
                 (auto_detected_college_col heads)
                 (auto_detected_college_col people) initial_state))
    as (_ & _ & _ & _ & Q3 & _).
  apply Q3; [done|]. unfold colleges_loop.
  apply colleges_rows_by_entry; [apply group_by_college_nonempty| | |constructor].
  - intros k hs h m Hentry Hh Hm.
    apply group_by_college_entry in Hentry as [-> _].
    apply list_elem_of_filter in Hh as [Hk Hh].
    rewrite bucket_get_group in Hm.
    apply list_elem_of_filter in Hm as [Hk' Hm].
    split_and!; [done|done|]. by exists k.
  - intros k hs h s Hentry Hh.
    apply group_by_college_entry in Hentry as [-> _].
    by apply list_elem_of_filter in Hh as [_ Hh].
Qed.

Lemma college_rows_same_college_example :
  HeadMember Examples.hA Examples.p2
  ∈ grouped_results (state_after_colleges Examples.heads3 Examples.people3)
  ∧ ∃ k, normalized_college "College" Examples.hA = Some k
         ∧ normalized_college "College" Examples.p2 = Some k.
Proof.
  assert (H : HeadMember Examples.hA Examples.p2
              ∈ grouped_results
                  (state_after_colleges Examples.heads3 Examples.people3))
    by (right; left).
  split; [exact H|].
  exact (proj2 (proj2 (college_rows_same_college
                         Examples.heads3 Examples.people3 _ H))).
Defined.

(** X5.  The colleges loop places no identifier twice: the people of the
    rows it appends all carry an identifier, these identifiers are pairwise
    distinct, and they are exactly the set [assigned_people_identifiers];
    the people handed to the general assignment carry none of them. *)
Theorem college_pass_identifiers (heads people : Table) :
  Forall (λ m, is_Some (get_identifier m (primary_column_name people)))
         (members_of (grouped_results (state_after_colleges heads people)))
  ∧ NoDup (identifiers (primary_column_name people)
             (members_of (grouped_results (state_after_colleges heads people))))
  ∧ assigned_people_identifiers (state_after_colleges heads people)
    = list_to_set
        (identifiers (primary_column_name people)
           (members_of (grouped_results (state_after_colleges heads people))))
  ∧ ∀ p i,
      p ∈ unassigned_people (json_data people) (primary_column_name people)
            (state_after_colleges heads people) →
      get_identifier p (primary_column_name people) = Some i →
      i ∉ identifiers (primary_column_name people)
            (members_of (grouped_results (state_after_colleges heads people))).
Proof.
  unfold state_after_colleges.
  destruct (colleges_loop_walks (json_data heads) (json_data people)
              (primary_column_name heads) (primary_column_name people)
              (auto_detected_college_col heads)
              (auto_detected_college_col people)) as (M & A & _).
  destruct (unprocessed_heads_fold (primary_column_name heads)
              (json_data heads)
              (colleges_loop (json_data heads) (json_data people)
                 (primary_column_name heads) (primary_column_name people)
                 (auto_detected_college_col heads)
                 (auto_detected_college_col people) initial_state))
    as (M3 & A3 & _).
  fold (unprocessed_heads_loop (json_data heads) (primary_column_name heads)
          (colleges_loop (json_data heads) (json_data people)
             (primary_column_name heads) (primary_column_name people)
             (auto_detected_college_col heads)
             (auto_detected_college_col people) initial_state)) in M3, A3.
  simpl in M, A. rewrite (right_id_L ∅ (∪)) in A.
  rewrite M3, A3, M, A.
  destruct (fresh_members_identifiers (primary_column_name people) ∅
              (concat ((λ entry : string * list Dict,
                          bucket_get entry.1
                            (group_by_college
                               (auto_detected_college_col people)
                               (json_data people)))
                         <$> group_by_college
                               (auto_detected_college_col heads)
                               (json_data heads))))
    as (Hnd & _ & Hsome).
  split_and!; [by apply Forall_forall|done|done|].
  intros p i [Hp _]%list_elem_of_filter Hi. rewrite Hi in Hp. simpl in Hp.
  rewrite A3, A in Hp. intros Hin. apply Hp.
  by apply elem_of_list_to_set.
Qed.

(** ** The colleges loop as an even distribution per college *)

Section college_even.
Context (hprimary pprimary : string).

Lemma distribute_even college_name heads base remainder people st :
  remainder ≤ length heads →
  base * length heads + remainder ≤ length people →
  fresh_members pprimary (assigned_people_identifiers st)
    (take (base * length heads + remainder) people)
  = take (base * length heads + remainder) people →
  grouped_results
    (distribute hprimary pprimary college_name heads base remainder people st)
  = grouped_results st
    ++ concat
         (imap (λ j head,
                  head_block ("No members assigned from " +:+ college_name)
                    head
                    (take (base + (if decide (j < remainder) then 1 else 0))
                          (drop (j * base + j `min` remainder) people)))
               heads).
Proof.
  revert remainder people st.
  induction heads as [|head heads IH]; intros remainder people st Hr Hlen Hfresh.
  { simpl. by rewrite app_nil_r. }
  cbn [distribute imap concat length] in *. cbv zeta.
  set (st1 := add_processed (get_identifier head hprimary) st).
  set (count := if decide (0 < remainder) then base + 1 else base).
  set (remainder' := if decide (0 < remainder) then remainder - 1
                     else remainder).
  assert (Hc : base + (if decide (0 < remainder) then 1 else 0) = count)
    by (unfold count; case_decide; lia).
  assert (Hr' : remainder' ≤ length heads)
    by (unfold remainder'; case_decide; lia).
  assert (Hsum : count + (base * length heads + remainder')
                 = base * S (length heads) + remainder)
    by (unfold count, remainder'; case_decide; lia).
  assert (HA : assigned_people_identifiers st1
               = assigned_people_identifiers st)
    by apply add_processed_assigned.
  assert (HR : grouped_results st1 = grouped_results st)
    by apply add_processed_results.
  rewrite <- Hsum, <- take_take_drop in Hfresh.
  apply fresh_members_all_app in Hfresh as [Hf1 Hf2].
  replace (0 * base + 0 `min` remainder) with 0 by lia.
  rewrite Hc, drop_0.
  destruct (decide (count = 0)) as [Hz|Hz].
  - rewrite IH; [|done|lia|].
    + simpl. rewrite HR, Hz, <- app_assoc. cbn [take head_block app].
      do 3 f_equal. apply imap_ext. intros j h _. unfold compose.
      assert (base = 0 ∧ remainder = 0 ∧ remainder' = 0) as (-> & -> & ->)
        by (unfold count, remainder' in *; case_decide; lia).
      do 2 f_equal.
    + simpl. rewrite HA. rewrite Hz in Hf2. simpl in Hf2.
      by rewrite (left_id_L ∅ (∪)), drop_0 in Hf2.
  - rewrite IH; [|done|rewrite length_drop; lia|].
    + rewrite assign_slice_results, HR, HA, Hf1, <- app_assoc.
      rewrite head_block_nonempty.
      2:{ intros E. apply (f_equal length) in E.
          rewrite length_take in E. simpl in E. lia. }
      do 3 f_equal. apply imap_ext. intros j h _. unfold compose.
      rewrite drop_drop. do 2 f_equal.
      * unfold remainder'. repeat case_decide; lia.
      * f_equal. unfold count, remainder'. case_decide; lia.
    + by rewrite assign_slice_assigned, HA, Hf1.
Qed.

Lemma college_without_people_rows college_name heads st :
  grouped_results (college_without_people hprimary college_name heads st)
  = grouped_results st
    ++ ((λ head,
           HeadOnly head
             ("No members from " +:+ college_name +:+ " assigned to this head"))
          <$> heads).
Proof.
  unfold college_without_people. revert st.
  induction heads as [|head heads IH]; intros st.
  - simpl. by rewrite app_nil_r.
  - cbn [foldl]. rewrite IH. simpl.
    by rewrite add_processed_results, <- app_assoc.
Qed.

Lemma college_step_rows people_by_college st college_name heads :
  heads ≠ [] →
  fresh_members pprimary (assigned_people_identifiers st)
    (bucket_get college_name people_by_college)
  = bucket_get college_name people_by_college →
  grouped_results
    (college_step hprimary pprimary people_by_college st (college_name, heads))
  = grouped_results st ++ college_rows people_by_college (college_name, heads).
Proof.
  intros Hne Hfresh. unfold college_step, college_rows. cbn [fst snd].
  set (people := bucket_get college_name people_by_college) in *.
  destruct (decide (people = [])) as [Hp|Hp].
  - rewrite decide_False by (by intros [_ ?]).
    rewrite decide_True by done. apply college_without_people_rows.
  - rewrite decide_True by done.
    assert (HH : 0 < length heads) by (destruct heads; simpl; [done|lia]).
    pose proof (Nat.div_mod_eq (length people) (length heads)) as E.
    pose proof (Nat.mod_upper_bound (length people) (length heads)
                  ltac:(lia)) as B.
    rewrite college_heads_loop_distribute by lia. cbn [snd].
    rewrite drop_0, distribute_even; [done|lia|lia|].
    rewrite take_ge by lia. done.
Qed.

Lemma colleges_loop_rows people_by_college entries st :
  Forall (λ entry, entry.2 ≠ []) entries →
  fresh_members pprimary (assigned_people_identifiers st)
    (concat ((λ entry : string * list Dict,
                bucket_get entry.1 people_by_college) <$> entries))
  = concat ((λ entry : string * list Dict,
               bucket_get entry.1 people_by_college) <$> entries) →
  grouped_results
    (foldl (college_step hprimary pprimary people_by_college) st entries)
  = grouped_results st
    ++ concat (college_rows people_by_college <$> entries).
Proof.
  intros Hall. revert st.
  induction Hall as [|[k heads] entries Hne _ IH]; intros st Hfresh.
  - simpl. by rewrite app_nil_r.
  - rewrite !fmap_cons in *. cbn [concat foldl fst] in *.
    apply fresh_members_all_app in Hfresh as [Hf1 Hf2].
    destruct (college_step_walks hprimary pprimary people_by_college st k
                heads Hne) as (_ & A & _).
    cbv zeta in A. rewrite Hf1 in A. rewrite <- A in Hf2.
    rewrite (IH _ Hf2).
    by rewrite college_step_rows, <- app_assoc.
Qed.
End college_even.

(** ** The college path in closed form *)

Lemma filter_ext_elem {A} (P Q : A → Prop) `{!∀ x, Decision (P x)}
    `{!∀ x, Decision (Q x)} (l : list A) :
  (∀ x, x ∈ l → (P x ↔ Q x)) → filter P l = filter Q l.
Proof.
  induction l as [|x l IH]; intros HPQ; [done|].
  rewrite !filter_cons, IH by (intros y Hy; apply HPQ; by right).
  destruct (HPQ x ltac:(left)) as [H1 H2].
  destruct (decide (P x)), (decide (Q x)); naive_solver.
Qed.

Section processed_exact.
Context (hprimary pprimary : string).

Lemma add_processed_processed head st :
  processed_heads_identifiers
    (add_processed (get_identifier head hprimary) st)
  = list_to_set (identifiers hprimary [head])
    ∪ processed_heads_identifiers st.
Proof.
  unfold identifiers. simpl.
  destruct (get_identifier head hprimary); simpl; set_solver.
Qed.

Lemma distribute_processed_eq college_name heads base remainder people st :
  processed_heads_identifiers
    (distribute hprimary pprimary college_name heads base remainder people st)
  = list_to_set (identifiers hprimary heads)
    ∪ processed_heads_identifiers st.
Proof.
  revert remainder people st.
  induction heads as [|head heads IH]; intros remainder people st.
  - simpl. by rewrite (left_id_L ∅ (∪)).
  - cbn [distribute]. cbv zeta.
    change (head :: heads) with ([head] ++ heads).
    rewrite identifiers_app, list_to_set_app_L.
    case_decide; rewrite IH.
    + simpl processed_heads_identifiers at 1.
      rewrite add_processed_processed. set_solver.
    + rewrite assign_slice_processed, add_processed_processed. set_solver.
Qed.

Lemma college_without_people_processed_eq college_name heads st :
  processed_heads_identifiers
    (college_without_people hprimary college_name heads st)
  = list_to_set (identifiers hprimary heads)
    ∪ processed_heads_identifiers st.
Proof.
  unfold college_without_people. revert st.
  induction heads as [|head heads IH]; intros st.
  - simpl. by rewrite (left_id_L ∅ (∪)).
  - cbn [foldl]. rewrite IH.
    change (head :: heads) with ([head] ++ heads).
    rewrite identifiers_app, list_to_set_app_L.
    simpl processed_heads_identifiers at 1.
    rewrite add_processed_processed. set_solver.
Qed.

Lemma college_step_processed_eq people_by_college st college_name heads :
  heads ≠ [] →
  processed_heads_identifiers
    (college_step hprimary pprimary people_by_college st (college_name, heads))
  = list_to_set (identifiers hprimary heads)
    ∪ processed_heads_identifiers st.
Proof.
  intros Hne. unfold college_step.
  set (people := bucket_get college_name people_by_college).
  destruct (decide (heads ≠ [] ∧ people ≠ [])) as [[_ Hp]|Hno].
  - assert (HH : 0 < length heads) by (destruct heads; simpl; [done|lia]).
    pose proof (Nat.div_mod_eq (length people) (length heads)) as E.
    pose proof (Nat.mod_upper_bound (length people) (length heads)
                  ltac:(lia)) as B.
    rewrite college_heads_loop_distribute by lia. cbn [snd].
    apply distribute_processed_eq.
  - rewrite decide_True by done. apply college_without_people_processed_eq.
Qed.

Lemma colleges_processed_eq people_by_college entries st :
  Forall (λ entry, entry.2 ≠ []) entries →
  processed_heads_identifiers
    (foldl (college_step hprimary pprimary people_by_college) st entries)
  = list_to_set (identifiers hprimary (concat entries.*2))
    ∪ processed_heads_identifiers st.
Proof.
  intros Hall. revert st.
  induction Hall as [|[k heads] entries Hne _ IH]; intros st.
  - simpl. by rewrite (left_id_L ∅ (∪)).
  - rewrite fmap_cons. cbn [foldl concat snd].
    rewrite IH, college_step_processed_eq by done.
    rewrite identifiers_app, list_to_set_app_L. set_solver.
Qed.

Lemma unprocessed_heads_rows heads st :
  grouped_results
    (foldl (λ st head,
              match get_identifier head hprimary with
              | Some head_id =>
                  if decide (head_id ∉ processed_heads_identifiers st) then
                    append_row
                      (HeadOnly head
                         "No members assigned (No college match or college info)")
                      st
                  else st
              | None => st
              end) st heads)
  = grouped_results st
    ++ ((λ head,
           HeadOnly head
             "No members assigned (No college match or college info)")
          <$> filter (λ head,
                        is_Some (get_identifier head hprimary)
                        ∧ not_in (get_identifier head hprimary)
                                 (processed_heads_identifiers st))
                     heads).
Proof.
  revert st. induction heads as [|head heads IH]; intros st.
  - simpl. by rewrite app_nil_r.
  - cbn [foldl]. rewrite IH, filter_cons.
    destruct (get_identifier head hprimary) as [i|] eqn:Ei; simpl.
    + destruct (decide (i ∉ processed_heads_identifiers st)) as [Hi|Hi].
      * rewrite decide_True by (split; [by eexists|done]).
        simpl. by rewrite <- app_assoc.
      * by rewrite decide_False by (by intros [_ ?]).
    + done.
Qed.
End processed_exact.

Lemma walked_people_elem_iff heads_data people_data hcollege pcollege m :
  m ∈ concat ((λ entry : string * list Dict,
                 bucket_get entry.1 (group_by_college pcollege people_data))
                <$> group_by_college hcollege heads_data)
  ↔ m ∈ people_data
    ∧ ¬ unmatched pcollege (group_by_college hcollege heads_data).*1 m.
Proof.
  unfold unmatched. split.
  - intros (items & Hitems & Hm)%elem_of_concat.
    apply list_elem_of_fmap in Hitems as ([k heads] & -> & Hentry).
    simpl in Hm. rewrite bucket_get_group in Hm.
    apply list_elem_of_filter in Hm as [Hk Hm]. split; [done|].
    intros Hout. apply Hout. rewrite Hk.
    apply list_elem_of_fmap. exists k. split; [done|].
    apply list_elem_of_fmap. by exists (k, heads).
  - intros [Hm Hmatch]. apply dec_stable in Hmatch.
    apply list_elem_of_fmap in Hmatch as (k & Hk & Hin).
    apply list_elem_of_fmap in Hin as ([k' heads] & -> & Hentry).
    apply elem_of_concat. exists (bucket_get k' (group_by_college pcollege
                                                   people_data)).
    split.
    + apply list_elem_of_fmap. by exists (k', heads).
    + rewrite bucket_get_group. by apply list_elem_of_filter.
Qed.

Lemma walked_people_fresh heads_data people_data pprimary hcollege pcollege :
  identified pprimary people_data →
  fresh_members pprimary ∅
    (concat ((λ entry : string * list Dict,
                bucket_get entry.1 (group_by_college pcollege people_data))
               <$> group_by_college hcollege heads_data))
  = concat ((λ entry : string * list Dict,
               bucket_get entry.1 (group_by_college pcollege people_data))
              <$> group_by_college hcollege heads_data).
Proof.
  intros [Hall Hnd]. rewrite Forall_forall in Hall.
  apply fresh_members_all.
  - intros x Hx%walked_people_elem.
    destruct (Hall x Hx) as [i Ei]. exists i. split; [done|].
    apply not_elem_of_empty.
  - apply identifiers_NoDup_inj.
    + apply walked_people_NoDup. by apply (NoDup_by_identifiers pprimary).
    + intros x y i Hx%walked_people_elem Hy%walked_people_elem.
      by apply (same_identifier pprimary people_data).
Qed.

(** X6.  When every person carries an identifier and no two people carry
    the same one, the rows that the colleges loop appends are, for each
    college of the heads in the order of first occurrence, the even
    distribution of the people of that college over its heads (the first
    heads getting the larger shares), or one status row per head when no
    person has that college. *)
Theorem college_pass_even (heads people : Table) :
  identified (primary_column_name people) (json_data people) →
  grouped_results
    (colleges_loop (json_data heads) (json_data people)
       (primary_column_name heads) (primary_column_name people)
       (auto_detected_college_col heads) (auto_detected_college_col people)
       initial_state)
  = concat
      (college_rows
         (group_by_college (auto_detected_college_col people)
            (json_data people))
         <$> group_by_college (auto_detected_college_col heads)
               (json_data heads)).
Proof.
  intros Hid. unfold colleges_loop.
  rewrite colleges_loop_rows.
  - done.
  - apply group_by_college_nonempty.
  - by apply walked_people_fresh.
Qed.

Lemma college_pass_even_example :
  identified (primary_column_name Examples.people3)
    (json_data Examples.people3)
  ∧ grouped_results
      (colleges_loop (json_data Examples.heads3) (json_data Examples.people3)
         "Name" "Name" "College" "College" initial_state)
    = even_distribution "No members assigned from x" [Examples.hA]
        [Examples.p1; Examples.p2]
      ++ [HeadOnly Examples.hB "No members from y assigned to this head"].
Proof.
  assert (H : identified (primary_column_name Examples.people3)
                (json_data Examples.people3)).
  { split; [repeat constructor; by eexists
           |apply (bool_decide_unpack _); vm_compute; exact I]. }
  split; [exact H|].
  exact (college_pass_even Examples.heads3 Examples.people3 H).
Defined.

Lemma heads_without_college_filter heads_data hprimary hcollege :
  identified hprimary heads_data →
  filter (λ head,
            not_in (get_identifier head hprimary)
              (list_to_set
                 (identifiers hprimary
                    (concat (group_by_college hcollege heads_data).*2))
               ∪ ∅))
         heads_data
  = filter (λ head, normalized_college hcollege head = None) heads_data.
Proof.
  intros [Hall Hnd]. rewrite Forall_forall in Hall.
  apply filter_ext_elem. intros h Hh. destruct (Hall h Hh) as [i Ei].
  rewrite Ei. simpl. split.
  - intros Hi. destruct (normalized_college hcollege h) as [k|] eqn:Ek;
      [|done].
    exfalso. apply Hi. apply elem_of_union. left.
    apply elem_of_list_to_set, list_elem_of_omap. exists h. split; [|done].
    apply walked_heads_elem. split; [done|by eexists].
  - intros Ek [Hi|Hi]%elem_of_union; [|by apply not_elem_of_empty in Hi].
    apply elem_of_list_to_set, list_elem_of_omap in Hi as (h' & Hh' & Ei').
    apply walked_heads_elem in Hh' as [Hh' [k Hk]].
    rewrite (same_identifier hprimary heads_data h h' i) in Ek by done.
    congruence.
Qed.

(** X7.  On the college path with at least one head, when in both tables
    every record carries an identifier and no two records carry the same
    one, the rows are: the rows of each college of the heads; then one
    status row per head without college; then the round-robin pairing of
    the people whose college is no head's college with the heads without
    college, or with all heads when every head has a college. *)
Theorem college_path_closed_form (heads people : Table) :
  auto_detected_college_col people ≠ "" →
  auto_detected_college_col heads ≠ "" →
  json_data heads ≠ [] →
  identified (primary_column_name heads) (json_data heads) →
  identified (primary_column_name people) (json_data people) →
  partition heads people = Grouped (college_path_rows heads people).
Proof.
  intros Hpc Hhc Hne Hhid Hpid.
  rewrite partition_college by done. f_equal.
  rewrite general_assignment_round_robin by done.
  unfold college_path_rows, state_after_colleges. cbv zeta.
  assert (R2 : grouped_results
                 (colleges_loop (json_data heads) (json_data people)
                    (primary_column_name heads) (primary_column_name people)
                    (auto_detected_college_col heads)
                    (auto_detected_college_col people) initial_state)
               = concat
                   (college_rows
                      (group_by_college (auto_detected_college_col people)
                         (json_data people))
                      <$> group_by_college (auto_detected_college_col heads)
                            (json_data heads))).
  { unfold colleges_loop. rewrite colleges_loop_rows; [done| |].
    - apply group_by_college_nonempty.
    - by apply walked_people_fresh. }
  set (hd := json_data heads) in *. set (pd := json_data people) in *.
  set (hprim := primary_column_name heads) in *.
  set (pprim := primary_column_name people) in *.
  set (hcol := auto_detected_college_col heads) in *.
  set (pcol := auto_detected_college_col people) in *.
  set (st2 := colleges_loop hd pd hprim pprim hcol pcol initial_state) in *.
  destruct (unprocessed_heads_fold hprim hd st2) as (_ & A3 & P3 & _).
  fold (unprocessed_heads_loop hd hprim st2) in A3, P3.
  assert (P2 : processed_heads_identifiers st2
               = list_to_set
                   (identifiers hprim (concat (group_by_college hcol hd).*2))
                 ∪ ∅).
  { unfold st2, colleges_loop. apply colleges_processed_eq.
    apply group_by_college_nonempty. }
  destruct (college_grouping_members hd pd hprim pprim hcol pcol) as [_ A2].
  fold st2 in A2. rewrite (walked_people_fresh hd pd pprim hcol pcol) in A2
    by done.
  assert (R3 : grouped_results (unprocessed_heads_loop hd hprim st2)
               = grouped_results st2
                 ++ ((λ head,
                        HeadOnly head
                          "No members assigned (No college match or college info)")
                       <$> filter (λ head, normalized_college hcol head = None)
                                  hd)).
  { unfold unprocessed_heads_loop. rewrite unprocessed_heads_rows.
    do 2 f_equal. rewrite P2.
    rewrite <- (heads_without_college_filter hd hprim hcol) by done.
    apply filter_ext_elem. intros h Hh. destruct Hhid as [Hall _].
    rewrite Forall_forall in Hall. split; [by intros [_ ?]|].
    intros ?. split; [by apply Hall|done]. }
  rewrite R3, R2, <- app_assoc. do 2 f_equal.
  assert (Hav : available_heads hd hprim (unprocessed_heads_loop hd hprim st2)
                = if decide (filter (λ head, normalized_college hcol head
                                             = None) hd = [])
                  then hd
                  else filter (λ head, normalized_college hcol head = None)
                              hd).
  { unfold available_heads. cbv zeta. rewrite P3, P2.
    by rewrite heads_without_college_filter. }
  assert (Hun : unassigned_people pd pprim (unprocessed_heads_loop hd hprim st2)
                = filter (unmatched pcol (group_by_college hcol hd).*1) pd).
  { unfold unassigned_people. rewrite A3, A2.
    apply filter_ext_elem. intros p Hp. destruct Hpid as [Hall Hnd].
    rewrite Forall_forall in Hall. destruct (Hall p Hp) as [i Ei].
    rewrite Ei. simpl. split.
    - intros Hi Hmatch. apply Hi.
      apply elem_of_list_to_set, list_elem_of_omap. exists p.
      split; [|done]. apply walked_people_elem_iff. split; [done|].
      by intros Hout.
    - intros Hout Hi.
      apply elem_of_list_to_set, list_elem_of_omap in Hi as (q & Hq & Eq).
      apply walked_people_elem_iff in Hq as [Hq Hmatch].
      rewrite (same_identifier pprim pd p q i) in Hout by done. done. }
  by rewrite Hav, Hun.
Qed.

Lemma college_path_closed_form_example :
  (identified (primary_column_name Examples.heads3)
     (json_data Examples.heads3)
   ∧ identified (primary_column_name Examples.people3)
       (json_data Examples.people3))
  ∧ partition Examples.heads3 Examples.people3
    = Grouped (college_path_rows Examples.heads3 Examples.people3).
Proof.
  assert (H : identified (primary_column_name Examples.heads3)
                (json_data Examples.heads3)
              ∧ identified (primary_column_name Examples.people3)
                  (json_data Examples.people3)).
  { split; (split;
      [repeat constructor; by eexists
      |apply (bool_decide_unpack _); vm_compute; exact I]). }
  split; [exact H|].
  apply (college_path_closed_form Examples.heads3 Examples.people3);
    [discriminate|discriminate|discriminate|exact (proj1 H)|exact (proj2 H)].
Defined.

(** ** Balance of the general assignment *)

Lemma share_S n U j :
  0 < n → j < n →
  share n (S U) j = share n U j + (if decide (U `mod` n = j) then 1 else 0).
Proof.
  intros Hn Hj. unfold share.
  pose proof (Nat.div_mod_eq U n) as E.
  pose proof (Nat.mod_upper_bound U n ltac:(lia)) as B.
  set (q := U / n) in *. set (r := U `mod` n) in *.
  destruct (decide (r + 1 < n)) as [Hr|Hr].
  - rewrite <- (Nat.div_unique (S U) n q (r + 1)) by lia.
    rewrite <- (Nat.mod_unique (S U) n q (r + 1)) by lia.
    repeat case_decide; lia.
  - rewrite <- (Nat.div_unique (S U) n (q + 1) 0) by lia.
    rewrite <- (Nat.mod_unique (S U) n (q + 1) 0) by lia.
    repeat case_decide; lia.
Qed.

Lemma lookup_total_inj (l : list Dict) i j :
  NoDup l → i < length l → j < length l → l !!! i = l !!! j → i = j.
Proof.
  intros Hnd Hi Hj E.
  apply (NoDup_lookup l i j (l !!! i) Hnd).
  - by apply list_lookup_lookup_total_lt.
  - rewrite E. by apply list_lookup_lookup_total_lt.
Qed.

Lemma round_robin_snoc candidates unassigned person :
  round_robin candidates (unassigned ++ [person])
  = round_robin candidates unassigned
    ++ [HeadMember
          (candidates !!! (length unassigned `mod` length candidates))
          person].
Proof.
  unfold round_robin. rewrite imap_app. simpl. by rewrite Nat.add_0_r.
Qed.

Lemma round_robin_balanced candidates unassigned j :
  NoDup candidates → j < length candidates →
  length (rows_of_candidate candidates j (round_robin candidates unassigned))
  = share (length candidates) (length unassigned) j.
Proof.
  intros Hnd Hj. unfold rows_of_candidate.
  induction unassigned as [|person unassigned IH] using rev_ind.
  - simpl. unfold share. rewrite Nat.Div0.div_0_l, Nat.Div0.mod_0_l.
    by rewrite decide_False by lia.
  - rewrite round_robin_snoc, filter_app, length_app, IH.
    rewrite length_app.
    replace (length unassigned + length [person])
      with (S (length unassigned)) by (simpl; lia).
    rewrite share_S by lia. f_equal.
    rewrite filter_cons, filter_nil. simpl.
    assert (Hlt : length unassigned `mod` length candidates
                  < length candidates)
      by (apply Nat.mod_upper_bound; lia).
    destruct (decide (length unassigned `mod` length candidates = j))
      as [<-|Hne].
    + by rewrite decide_True.
    + rewrite decide_False; [done|]. intros [= E].
      by apply lookup_total_inj in E.
Qed.

(** X8.  The loop of lines 226-238 is balanced: with [n] distinct candidate
    heads and [U] unassigned people, candidate [j] gets [U / n] rows, and
    one more when [j < U mod n]; each row pairs one unassigned person, and
    they come in the order of the unassigned people. *)
Theorem cycle_heads_balanced (candidates unassigned : list Dict) (j : nat) :
  NoDup candidates → j < length candidates →
  length (rows_of_candidate candidates j
            (cycle_heads_loop candidates unassigned 0 []))
  = length unassigned / length candidates
    + (if decide (j < length unassigned `mod` length candidates) then 1
       else 0)
  ∧ members_of (cycle_heads_loop candidates unassigned 0 []) = unassigned.
Proof.
  intros Hnd Hj.
  assert (Hne : candidates ≠ []) by (intros ->; simpl in Hj; lia).
  rewrite cycle_heads_loop_spec by (try done; lia). rewrite app_nil_l.
  split.
  - apply (round_robin_balanced candidates unassigned j Hnd Hj).
  - apply members_of_imap_HeadMember.
Qed.

Lemma cycle_heads_balanced_example :
  NoDup [Examples.hA; Examples.hB]
  ∧ length (rows_of_candidate [Examples.hA; Examples.hB] 0
              (cycle_heads_loop [Examples.hA; Examples.hB]
                 [Examples.p1; Examples.p2; Examples.p3] 0 []))
    = 2.
Proof.
  assert (H : NoDup [Examples.hA; Examples.hB])
    by (apply (bool_decide_unpack _); vm_compute; exact I).
  split; [exact H|].
  exact (proj1 (cycle_heads_balanced [Examples.hA; Examples.hB]
                  [Examples.p1; Examples.p2; Examples.p3] 0 H
                  ltac:(simpl; lia))).
Defined.

(** ** Reading a projected row *)

Lemma dict_get_app (d1 d2 : Dict) key :
  dict_get key (d1 ++ d2)
  = match dict_get key d1 with
    | Some v => Some v
    | None => dict_get key d2
    end.
Proof.
  induction d1 as [|[k v] d1 IH]; simpl; [done|]. by case_decide.
Qed.

Lemma dict_get_prefixed prefix (d : Dict) key :
  dict_get (prefix +:+ key) (prefixed prefix d) = dict_get key d.
Proof.
  induction d as [|[k v] d IH]; [done|]. unfold prefixed in *. csimpl.
  destruct (decide (k = key)) as [->|Hne].
  - by rewrite decide_True.
  - rewrite decide_False; [done|]. by intros ?%append_inj_r.
Qed.

Lemma dict_get_None (d : Dict) key : key ∉ d.*1 → dict_get key d = None.
Proof.
  induction d as [|[k v] d IH]; csimpl; [done|].
  intros [Hne Hk]%not_elem_of_cons. rewrite decide_False by done. by apply IH.
Qed.

Lemma prefixed_fst prefix (d : Dict) :
  (prefixed prefix d).*1 = (λ k, prefix +:+ k) <$> d.*1.
Proof.
  unfold prefixed. rewrite <- !list_fmap_compose. by apply list_fmap_ext.
Qed.

Lemma is_dict_prefixed prefix (d : Dict) :
  is_dict d → is_dict (prefixed prefix d).
Proof.
  unfold is_dict. rewrite prefixed_fst. intros Hnd.
  apply NoDup_fmap_2; [|done]. intros k k'. apply append_inj_r.
Qed.

(** X9.  A projected row is again a dictionary with distinct keys, and it
    can be read back: under "Team Head - k" it holds what the head holds
    under [k], under "Group Member - k" what the member holds under [k], and
    a row without member holds its status under "Group Member - Status". *)
Theorem project_lookup (head member : Dict) :
  is_dict head → is_dict member →
  is_dict (project (HeadMember head member))
  ∧ (∀ k, dict_get ("Team Head - " +:+ k) (project (HeadMember head member))
          = dict_get k head)
  ∧ (∀ k, dict_get ("Group Member - " +:+ k)
            (project (HeadMember head member))
          = dict_get k member)
  ∧ ∀ status,
      is_dict (project (HeadOnly head status))
      ∧ (∀ k, dict_get ("Team Head - " +:+ k) (project (HeadOnly head status))
              = dict_get k head)
      ∧ dict_get "Group Member - Status" (project (HeadOnly head status))
        = Some status.
Proof.
  intros Hh Hm.
  assert (Hhead : ∀ k, dict_get (member_prefix +:+ k)
                         (prefixed head_prefix head) = None).
  { intros k. apply dict_get_None.
    intros (k' & _ & E)%prefixed_keys. discriminate E. }
  rewrite project_HeadMember by done. split_and!.
  - unfold is_dict. rewrite fmap_app. apply NoDup_app. split_and!.
    + by apply is_dict_prefixed.
    + intros k (k1 & _ & ->)%prefixed_keys (k2 & _ & E)%prefixed_keys.
      discriminate E.
    + by apply is_dict_prefixed.
  - intros k. rewrite dict_get_app.
    change "Team Head - " with head_prefix. rewrite dict_get_prefixed.
    destruct (dict_get k head) eqn:E; [done|].
    apply dict_get_None. intros (k' & _ & E')%prefixed_keys. discriminate E'.
  - intros k. rewrite dict_get_app.
    change "Group Member - " with member_prefix.
    by rewrite Hhead, dict_get_prefixed.
  - intros status. rewrite project_HeadOnly by done. split_and!.
    + unfold is_dict. rewrite fmap_app. apply NoDup_app. split_and!.
      * by apply is_dict_prefixed.
      * intros k (k1 & _ & ->)%prefixed_keys E%list_elem_of_singleton.
        discriminate E.
      * apply NoDup_singleton.
    + intros k. rewrite dict_get_app.
      change "Team Head - " with head_prefix. rewrite dict_get_prefixed.
      by destruct (dict_get k head).
    + rewrite dict_get_app.
      change "Group Member - Status" with (member_prefix +:+ "Status").
      by rewrite Hhead.
Qed.

Lemma project_lookup_example :
  is_dict Examples.hA ∧ is_dict Examples.p1
  ∧ dict_get "Group Member - College"
      (project (HeadMember Examples.hA Examples.p1))
    = Some "X".
Proof.
  assert (H1 : is_dict Examples.hA)
    by (apply (bool_decide_unpack _); vm_compute; exact I).
  assert (H2 : is_dict Examples.p1)
    by (apply (bool_decide_unpack _); vm_compute; exact I).
  split; [exact H1|]. split; [exact H2|].
  exact (proj1 (proj2 (proj2 (project_lookup Examples.hA Examples.p1 H1 H2)))
           "College").
Defined.

(** ** The records of a table that was read *)

Lemma dict_set_keys key value (d : Dict) :
  (dict_set key value d).*1
  = if decide (key ∈ d.*1) then d.*1 else d.*1 ++ [key].
Proof.
  induction d as [|[k v] d IH]; csimpl; [done|].
  destruct (decide (k = key)) as [->|Hne]; csimpl.
  - by rewrite decide_True by left.
  - rewrite IH. destruct (decide (key ∈ d.*1)) as [Hin|Hin].
    + by rewrite decide_True by (by right).
    + rewrite decide_False; [done|].
      intros [?|?]%elem_of_cons; congruence.
Qed.

Lemma dict_set_is_dict key value (d : Dict) :
  is_dict d → is_dict (dict_set key value d).
Proof.
  unfold is_dict. rewrite dict_set_keys. intros Hnd.
  case_decide as Hin; [done|].
  apply NoDup_app. split_and!; [done| |apply NoDup_singleton].
  by intros k Hk ->%list_elem_of_singleton.
Qed.

Lemma dict_get_is_Some (d : Dict) key :
  is_Some (dict_get key d) ↔ key ∈ d.*1.
Proof.
  induction d as [|[k v] d IH]; csimpl.
  - split; [by intros [? ?]|by intros ?%elem_of_nil].
  - case_decide as E.
    + subst. split; [left|by eexists].
    + rewrite IH. split; [by right|].
      intros [?|?]%elem_of_cons; [congruence|done].
Qed.

(** The fold that builds a record, started from any row. *)
Lemma record_fold_is_dict (df : DataFrame) i (row : Dict) :
  is_dict row →
  is_dict (foldl (λ row column,
                    dict_set (header column) (as_str (cells column !!! i)) row)
                 row df).
Proof.
  revert row. induction df as [|c df IH]; intros row Hrow; [done|].
  cbn [foldl]. by apply IH, dict_set_is_dict.
Qed.

Lemma record_fold_keys (df : DataFrame) i j (row row' : Dict) :
  row.*1 = row'.*1 →
  (foldl (λ row column,
            dict_set (header column) (as_str (cells column !!! i)) row)
         row df).*1
  = (foldl (λ row column,
              dict_set (header column) (as_str (cells column !!! j)) row)
           row' df).*1.
Proof.
  revert row row'. induction df as [|c df IH]; intros row row' E; [done|].
  cbn [foldl]. apply IH. by rewrite !dict_set_keys, E.
Qed.

Lemma record_fold_has_key (df : DataFrame) i (row : Dict) key :
  key ∈ row.*1 ∨ key ∈ header <$> df →
  key ∈ (foldl (λ row column,
                  dict_set (header column) (as_str (cells column !!! i)) row)
               row df).*1.
Proof.
  revert row. induction df as [|c df IH]; intros row Hkey.
  - destruct Hkey as [?|Hin]; [done|]. by apply elem_of_nil in Hin.
  - cbn [foldl]. apply IH. rewrite dict_set_keys.
    destruct Hkey as [Hin|Hin].
    + left. case_decide; [done|]. apply elem_of_app. by left.
    + rewrite fmap_cons in Hin. apply elem_of_cons in Hin as [->|Hin].
      * left. case_decide; [done|]. apply elem_of_app. right. left.
      * by right.
Qed.

Lemma record_fold_distinct (df : DataFrame) i (row : Dict) :
  NoDup (row.*1 ++ (header <$> df)) →
  foldl (λ row column,
           dict_set (header column) (as_str (cells column !!! i)) row)
        row df
  = row ++ ((λ column, (header column, as_str (cells column !!! i))) <$> df).
Proof.
  revert row. induction df as [|c df IH]; intros row Hnd.
  - simpl. by rewrite app_nil_r.
  - cbn [foldl]. rewrite fmap_cons in Hnd.
    apply NoDup_app in Hnd as (Hrow & Hdisj & Hdf).
    rewrite dict_set_fresh by (intros Hin; apply (Hdisj _ Hin); left).
    rewrite IH.
    + rewrite fmap_cons, <- app_assoc. done.
    + rewrite fmap_app. csimpl. rewrite <- app_assoc. simpl.
      apply NoDup_app. split_and!; [done| |done].
      intros k Hk Hin. by apply (Hdisj k).
Qed.

Lemma read_excel_file_loaded upload :
  json_data (read_excel_file upload) ≠ [] →
  ∃ first_column columns,
    upload = Parsed (first_column :: columns)
    ∧ header first_column ≠ ""
    ∧ read_excel_file upload
      = mkTable (to_dict_records (first_column :: columns))
                (header first_column)
                (detect_college_column (first_column :: columns)).
Proof.
  destruct upload as [|[|c df]]; [done|done|]. unfold read_excel_file.
  case_decide; [done|]. case_decide; [done|]. intros _. by exists c, df.
Qed.

(** X10.  Whatever the upload, the table that [read_excel_file] returns is
    well formed: every record is a dictionary with distinct keys, all
    records have the same keys, and every record has a value under the
    primary column, so [get_identifier] never gives [None] on it.  An empty
    table comes with empty column names; a non-empty one has one record per
    row of the frame and the first header, which is not empty, as primary
    column; and when the headers are distinct, record [i] lists the cells
    of row [i] under their headers, in column order. *)
Theorem read_excel_file_records (upload : Upload) :
  Forall is_dict (json_data (read_excel_file upload))
  ∧ Forall (λ item,
              is_Some (get_identifier item
                         (primary_column_name (read_excel_file upload))))
           (json_data (read_excel_file upload))
  ∧ (∀ item item',
       item ∈ json_data (read_excel_file upload) →
       item' ∈ json_data (read_excel_file upload) →
       item.*1 = item'.*1)
  ∧ (json_data (read_excel_file upload) = [] →
     read_excel_file upload = mkTable [] "" "")
  ∧ (json_data (read_excel_file upload) ≠ [] →
     ∃ df, upload = Parsed df
           ∧ length (json_data (read_excel_file upload)) = num_rows df
           ∧ Some (primary_column_name (read_excel_file upload))
             = header <$> head df
           ∧ primary_column_name (read_excel_file upload) ≠ ""
           ∧ (NoDup (header <$> df) →
              ∀ i, i < num_rows df →
                json_data (read_excel_file upload) !! i
                = Some ((λ column,
                           (header column, as_str (cells column !!! i)))
                          <$> df))).
Proof.
  destruct (decide (json_data (read_excel_file upload) = [])) as [E|Hne].
  - rewrite E. split_and!; [constructor|constructor| |intros _|done].
    + by intros item item' ?%elem_of_nil.
    + destruct upload as [|[|c df]]; [done|done|].
      unfold read_excel_file in *.
      case_decide; [done|]. case_decide; [done|].
      simpl in E. unfold to_dict_records in E.
      apply fmap_nil_inv in E. apply (f_equal length) in E.
      rewrite length_seq in E. simpl in E. done.
  - destruct (read_excel_file_loaded upload Hne) as (c & df & -> & Hc & ->).
    cbn [json_data primary_column_name auto_detected_college_col].
    unfold to_dict_records. split_and!.
    + apply Forall_fmap, Forall_forall. intros i _. simpl.
      apply record_fold_is_dict. constructor.
    + apply Forall_fmap, Forall_forall. intros i _. simpl.
      unfold get_identifier. apply dict_get_is_Some.
      apply (record_fold_has_key (c :: df) i []). right. left.
    + intros item item' (i & -> & _)%list_elem_of_fmap
        (j & -> & _)%list_elem_of_fmap.
      by apply record_fold_keys.
    + intros E. apply fmap_nil_inv in E. apply (f_equal length) in E.
      rewrite length_seq in E. simpl in E.
      exfalso. apply Hne. simpl. unfold to_dict_records. simpl.
      destruct (cells c); [done|discriminate E].
    + intros _. exists (c :: df). split_and!; [done| |done|done|].
      * by rewrite length_fmap, length_seq.
      * intros Hnd i Hi. rewrite list_lookup_fmap, lookup_seq_lt by done.
        simpl. f_equal. unfold record_at.
        by rewrite record_fold_distinct.
Qed.

(** ** Detection of the college column *)

Lemma detect_college_column_cons column columns :
  detect_college_column (column :: columns)
  = if qualifies column then header column
    else detect_college_column columns.
Proof.
  cbn [detect_college_column]. unfold qualifies. cbv zeta.
  destruct (existsb _ college_keywords); [|done].
  destruct (forallb is_na (cells column)); [done|].
  by destruct (numeric_dtype column && _).
Qed.

Lemma qualifies_header column : qualifies column = true → header column ≠ "".
Proof.
  intros Hq E. unfold qualifies in Hq. rewrite E in Hq. discriminate Hq.
Qed.

(** X11.  The detected college column is the header of the first column, in
    column order, that qualifies: its header contains one of the keywords
    whatever the case of its letters, some cell of it is not missing, and it
    is not a numeric column without letters.  Such a header is never empty,
    so the result is [''] exactly when no column qualifies. *)
Theorem detect_college_column_first (df : DataFrame) :
  (detect_college_column df = ""
   ↔ Forall (λ column, qualifies column = false) df)
  ∧ (detect_college_column df ≠ "" →
     ∃ before column after,
       df = before ++ column :: after
       ∧ Forall (λ column, qualifies column = false) before
       ∧ qualifies column = true
       ∧ detect_college_column df = header column).
Proof.
  induction df as [|c df [IH1 IH2]].
  - split; [done|]. by intros [].
  - rewrite detect_college_column_cons.
    destruct (qualifies c) eqn:Hq.
    + split.
      * split; [by intros ?%(qualifies_header c Hq)|].
        intros [Hc _]%Forall_cons. congruence.
      * intros _. exists [], c, df. by split_and!.
    + split.
      * rewrite IH1. split; [by constructor|by intros [_ ?]%Forall_cons].
      * intros (before & c' & after & -> & Hb & Hc' & E)%IH2.
        exists (c :: before), c', after. split_and!; try done.
        by constructor.
Qed.

Lemma contains_prefix keyword s :
  String.prefix keyword s = true → contains keyword s = true.
Proof. intros H. destruct s; cbn [contains]; by rewrite H. Qed.

Lemma prefix_append keyword s : String.prefix keyword (keyword +:+ s) = true.
Proof.
  induction keyword as [|a keyword IH]; simpl; [by destruct s|].
  by destruct (ascii_dec a a).
Qed.

Lemma prefix_inv keyword s :
  String.prefix keyword s = true → ∃ after, s = keyword +:+ after.
Proof.
  revert s. induction keyword as [|a keyword IH]; intros s H.
  - by exists s.
  - destruct s as [|b s]; [done|]. simpl in H.
    destruct (ascii_dec a b) as [->|]; [|done].
    destruct (IH s H) as [after ->]. by exists after.
Qed.

Lemma contains_append keyword before after :
  contains keyword (before +:+ keyword +:+ after) = true.
Proof.
  induction before as [|a before IH].
  - change ("" +:+ keyword +:+ after) with (keyword +:+ after).
    apply contains_prefix, prefix_append.
  - change (String a before +:+ keyword +:+ after)
      with (String a (before +:+ keyword +:+ after)).
    cbn [contains]. rewrite IH. apply orb_true_r.
Qed.

Lemma contains_inv keyword s :
  contains keyword s = true →
  ∃ before after, s = before +:+ keyword +:+ after.
Proof.
  induction s as [|a s IH]; cbn [contains].
  - rewrite orb_false_r. intros [after ->]%prefix_inv. by exists "", after.
  - intros [H|H]%orb_true_iff.
    + apply prefix_inv in H as [after ->]. by exists "", after.
    + destruct (IH H) as (before & after & ->).
      by exists (String a before), after.
Qed.

(** X12.  The keyword test of line 43 is a substring test on the header in
    lower case: a keyword matches exactly the headers that contain it
    between any two texts.  Hence the keyword 'university' adds nothing to
    'uni': the test gives the same answer without it. *)
Theorem keyword_anywhere (keyword s : string) :
  (contains keyword s = true
   ↔ ∃ before after, s = before +:+ keyword +:+ after)
  ∧ ∀ column,
      existsb (λ keyword, contains keyword (lower (header column)))
              college_keywords
      = existsb (λ keyword, contains keyword (lower (header column)))
                ["college"; "institution"; "school"; "uni"].
Proof.
  split.
  - split; [apply contains_inv|].
    intros (before & after & ->). apply contains_append.
  - intros column. unfold college_keywords. cbn [existsb].
    destruct (contains "university" (lower (header column))) eqn:E; [|done].
    apply contains_inv in E as (before & after & E). rewrite E.
    change "university" with ("uni" +:+ "versity").
    assert (Happ : ∀ a b c : string, (a +:+ b) +:+ c = a +:+ (b +:+ c)).
    { intros a b c. induction a as [|x a IH]; [done|].
      change (String x ((a +:+ b) +:+ c) = String x (a +:+ (b +:+ c))).
      by f_equal. }
    rewrite Happ, contains_append. by rewrite !orb_true_r.
Qed.

(** ** No person twice *)

(** X13.  Whatever the identifiers, no person is paired twice: the people
    of the rows, counted with repetitions, are among the people of the
    table.  (A person may be left out, when another person carries its
    identifier.) *)
Theorem no_person_twice (heads people : Table) (rows : list Association) :
  partition heads people = Grouped rows →
  members_of rows ⊆+ json_data people.
Proof.
  intros Hrows.
  destruct (partition_cases heads people) as [Hno|[Hp Hh]].
  - rewrite partition_general in Hrows by done.
    apply general_grouping_Grouped in Hrows as [HH ->].
    by rewrite even_distribution_members.
  - rewrite partition_college in Hrows by done. injection Hrows as <-.
    unfold state_after_colleges.
    destruct (college_grouping_members (json_data heads) (json_data people)
                (primary_column_name heads) (primary_column_name people)
                (auto_detected_college_col heads)
                (auto_detected_college_col people)) as [-> HA].
    set (pprim := primary_column_name people) in *.
    set (W := concat _) in *.
    set (A := assigned_people_identifiers _) in *.
    etrans; [|apply Permutation_submseteq,
                (filter_app_complement
                   (λ person, not_in (get_identifier person pprim) A)
                   (json_data people))].
    etrans; [apply Permutation_submseteq, Permutation_app_comm|].
    unfold unassigned_people. fold A.
    apply submseteq_app; [done|].
    apply NoDup_submseteq; [apply fresh_members_NoDup|].
    intros x Hx.
    destruct (fresh_members_identifiers pprim ∅ W) as (_ & _ & Hsome).
    destruct (Hsome x Hx) as [i Ei].
    apply list_elem_of_filter. split.
    + rewrite Ei. simpl. intros Hi. apply Hi. rewrite HA.
      apply elem_of_list_to_set, list_elem_of_omap. by exists x.
    + apply (walked_people_elem (json_data heads) (json_data people)
               (auto_detected_college_col heads)
               (auto_detected_college_col people)).
      by apply (fresh_members_elem pprim ∅).
Qed.

Lemma no_person_twice_example :
  members_of [HeadMember Examples.hA Examples.q1]
  ⊆+ json_data Examples.people_dup.
Proof.
  exact (no_person_twice Examples.heads_dup Examples.people_dup _ eq_refl).
Defined.
